(** * go-plist: the reflective value converter of [type.go]

    A shallow embedding of [isEmptyValue], [stringMarshalableToPlistValue],
    [structToPlistValue] and [valueToPlistValue], over a model of the part of
    Go's [reflect] package these functions call.

    Conventions.
    - A Go function that can panic returns an [exec]; a Go result pair of a
      plistValue pointer and an error is a pair of options ([None] is nil).
    - [valueToPlistValue] recurses through values it reaches by reflection,
      so it is defined with a fuel argument; the lemmas of the last part show
      that fuel above the depth of the value always suffices.
    - The provider of field descriptors ([getTypeInfo], [fieldInfo.value]),
      the method sets of user types ([Implements]) and the user's
      [MarshalText] methods are outside [type.go]: they are Variables of the
      section that holds the converter. *)

From Stdlib Require Import ZArith Floats.SpecFloat.
From stdpp Require Import base option list strings gmap fin_maps.

Set Warnings "-register-all".
Open Scope Z_scope.

(** ** Outcomes of a call *)

Inductive exec (A : Type) : Type :=
| Done (a : A)
| Panic (msg : string)
| OutOfFuel.
Arguments Done {A} a.
Arguments Panic {A} msg.
Arguments OutOfFuel {A}.

(** [exec] is a monad; stdpp's notation [x ← m; k] sequences calls and
    stops at the first panic. *)
#[global] Instance exec_ret : MRet exec := fun A a => Done a.

#[global] Instance exec_bind : MBind exec := fun A B k m =>
  match m with
  | Done a => k a
  | Panic msg => Panic msg
  | OutOfFuel => OutOfFuel
  end.

(** A Go byte, as its value in [0, 256). *)
Definition byte : Set := Z.

(** ** The model of package reflect *)

Module reflect.

Inductive Kind : Set :=
| Invalid | Bool
| Int | Int8 | Int16 | Int32 | Int64
| Uint | Uint8 | Uint16 | Uint32 | Uint64 | Uintptr
| Float32 | Float64 | Complex64 | Complex128
| Array | Chan | Func | Interface | Map | Ptr | Slice
| String | Struct | UnsafePointer.

Definition Kind_eqb (a b : Kind) : bool :=
  match a, b with
  | Invalid, Invalid | Bool, Bool
  | Int, Int | Int8, Int8 | Int16, Int16 | Int32, Int32 | Int64, Int64
  | Uint, Uint | Uint8, Uint8 | Uint16, Uint16 | Uint32, Uint32
  | Uint64, Uint64 | Uintptr, Uintptr
  | Float32, Float32 | Float64, Float64
  | Complex64, Complex64 | Complex128, Complex128
  | Array, Array | Chan, Chan | Func, Func | Interface, Interface
  | Map, Map | Ptr, Ptr | Slice, Slice
  | String, String | Struct, Struct | UnsafePointer, UnsafePointer => true
  | _, _ => false
  end.

(** Widths of the sized integer and float types; [W0] is the platform
    word of [int], [uint] and [uintptr], taken as 64 bits. *)
Inductive width : Set := W0 | W8 | W16 | W32 | W64.

Definition bits (w : width) : Z :=
  match w with W0 => 64 | W8 => 8 | W16 => 16 | W32 => 32 | W64 => 64 end.

(** A type descriptor: every type carries the text of [Type.String()]. *)
Inductive rtype : Type :=
| Tbool (name : string)
| Tint (name : string) (w : width)
| Tuint (name : string) (w : width)
| Tuintptr (name : string)
| Tfloat (name : string) (w : width)
| Tcomplex (name : string) (w : width)
| Tstring (name : string)
| Tarray (name : string) (len : nat) (elem : rtype)
| Tslice (name : string) (elem : rtype)
| Tmap (name : string) (key elem : rtype)
| Tptr (name : string) (elem : rtype)
| Tchan (name : string) (elem : rtype)
| Tfunc (name : string)
| Tinterface (name : string)
| Tstruct (name : string) (fields : list (string * bool * rtype))
| TunsafePointer (name : string).

Definition Type_String (t : rtype) : string :=
  match t with
  | Tbool n | Tint n _ | Tuint n _ | Tuintptr n | Tfloat n _ | Tcomplex n _
  | Tstring n | Tarray n _ _ | Tslice n _ | Tmap n _ _ | Tptr n _
  | Tchan n _ | Tfunc n | Tinterface n | Tstruct n _ | TunsafePointer n => n
  end.

Definition Type_Kind (t : rtype) : Kind :=
  match t with
  | Tbool _ => Bool
  | Tint _ W0 => Int | Tint _ W8 => Int8 | Tint _ W16 => Int16
  | Tint _ W32 => Int32 | Tint _ W64 => Int64
  | Tuint _ W0 => Uint | Tuint _ W8 => Uint8 | Tuint _ W16 => Uint16
  | Tuint _ W32 => Uint32 | Tuint _ W64 => Uint64
  | Tuintptr _ => Uintptr
  | Tfloat _ W32 => Float32 | Tfloat _ _ => Float64
  | Tcomplex _ W64 => Complex64 | Tcomplex _ _ => Complex128
  | Tstring _ => String
  | Tarray _ _ _ => Array
  | Tslice _ _ => Slice
  | Tmap _ _ _ => Map
  | Tptr _ _ => Ptr
  | Tchan _ _ => Chan
  | Tfunc _ => Func
  | Tinterface _ => Interface
  | Tstruct _ _ => Struct
  | TunsafePointer _ => UnsafePointer
  end.

(** [Type.Elem] panics unless the kind is Array, Chan, Map, Ptr or Slice. *)
Definition Type_Elem (t : rtype) : exec rtype :=
  match t with
  | Tarray _ _ e | Tslice _ e | Tmap _ _ e | Tptr _ e | Tchan _ e => Done e
  | _ => Panic "reflect: Elem of invalid type"
  end.

(** [Type.Key] panics unless the kind is Map. *)
Definition Type_Key (t : rtype) : exec rtype :=
  match t with
  | Tmap _ k _ => Done k
  | _ => Panic "reflect: Key of non-map type"
  end.

(** Identity of types, as [typesMustMatch] compares them. *)
Fixpoint rtype_eqb (a b : rtype) : bool :=
  match a, b with
  | Tbool n, Tbool m | Tuintptr n, Tuintptr m | Tstring n, Tstring m
  | Tfunc n, Tfunc m | Tinterface n, Tinterface m
  | TunsafePointer n, TunsafePointer m => String.eqb n m
  | Tint n w, Tint m u | Tuint n w, Tuint m u | Tfloat n w, Tfloat m u
  | Tcomplex n w, Tcomplex m u =>
      String.eqb n m && (bits w =? bits u)
      && Kind_eqb (Type_Kind a) (Type_Kind b)
  | Tarray n l e, Tarray m k f =>
      String.eqb n m && Nat.eqb l k && rtype_eqb e f
  | Tslice n e, Tslice m f | Tptr n e, Tptr m f | Tchan n e, Tchan m f =>
      String.eqb n m && rtype_eqb e f
  | Tmap n k e, Tmap m j f =>
      String.eqb n m && rtype_eqb k j && rtype_eqb e f
  | Tstruct n fs, Tstruct m gs =>
      String.eqb n m &&
      (fix fields_eqb (fs gs : list (string * bool * rtype)) : bool :=
         match fs, gs with
         | [], [] => true
         | (fn, fe, ft) :: fs', (gn, ge, gt) :: gs' =>
             String.eqb fn gn && Bool.eqb fe ge && rtype_eqb ft gt
             && fields_eqb fs' gs'
         | _, _ => false
         end) fs gs
  | _, _ => false
  end.

(** The data a value holds, in the shape of its kind. A pointer holds its
    target, an interface its dynamic type and value; [None] is nil. *)
Inductive data : Type :=
| DBool (b : bool)
| DInt (i : Z)
| DUint (u : Z)
| DFloat (f : spec_float)
| DString (s : string)
| DList (elems : list data)
| DMap (entries : list (data * data))
| DPtr (target : option data)
| DIface (dyn : option (rtype * data))
| DStruct (fields : list data)
| DOpaque.

(** The two flags of a [Value] the converter can observe: [flagAddr]
    (the value is addressable) and [flagRO] (it was reached through an
    unexported struct field). *)
Record flag : Set := mkflag { flagAddr : bool; flagRO : bool }.

(** [Zero] is the zero Value, the only invalid one. *)
Inductive Value : Type :=
| Zero
| V (typ : rtype) (d : data) (fl : flag).

Definition is_Some_bool {A : Type} (o : option A) : bool :=
  match o with Some _ => true | None => false end.

Definition ValueOf (t : rtype) (d : data) : Value := V t d (mkflag false false).

Definition Value_IsValid (v : Value) : bool :=
  match v with Zero => false | V _ _ _ => true end.

(** [Value.Kind] is the one method that accepts the zero Value. *)
Definition Value_Kind (v : Value) : Kind :=
  match v with Zero => Invalid | V t _ _ => Type_Kind t end.

Definition Value_Type (v : Value) : exec rtype :=
  match v with
  | Zero => Panic "reflect: call of reflect.Value.Type on zero Value"
  | V t _ _ => Done t
  end.

Definition Value_CanInterface (v : Value) : exec bool :=
  match v with
  | Zero => Panic "reflect: call of reflect.Value.CanInterface on zero Value"
  | V _ _ fl => Done (negb (flagRO fl))
  end.

Definition Value_CanAddr (v : Value) : bool :=
  match v with Zero => false | V _ _ fl => flagAddr fl end.

(** [reflect.PtrTo(t)]: the pointer type with element [t]. *)
Definition PtrTo (t : rtype) : rtype := Tptr ("*" +:+ Type_String t) t.

(** [Value.Addr]: a pointer to an addressable value. *)
Definition Value_Addr (v : Value) : exec Value :=
  match v with
  | V t d fl =>
      if flagAddr fl
      then Done (V (PtrTo t) (DPtr (Some d)) (mkflag false (flagRO fl)))
      else Panic "reflect.Value.Addr of unaddressable value"
  | Zero => Panic "reflect.Value.Addr of unaddressable value"
  end.

(** [Value.Interface]: the value as an [interface{}]; [None] is the nil
    interface, which only a nil value of kind Interface yields. *)
Definition Value_Interface (v : Value) : exec (option (rtype * data)) :=
  match v with
  | Zero => Panic "reflect: call of reflect.Value.Interface on zero Value"
  | V t d fl =>
      if flagRO fl
      then Panic "reflect.Value.Interface: cannot return value obtained from unexported field or method"
      else match t, d with
           | Tinterface _, DIface dyn => Done dyn
           | Tinterface _, _ => Panic "reflect: corrupt interface value"
           | _, _ => Done (Some (t, d))
           end
  end.

(** [Value.Elem]: the target of a pointer or the content of an interface;
    the zero Value when it is nil. *)
Definition Value_Elem (v : Value) : exec Value :=
  match v with
  | V (Tinterface _) (DIface None) _ => Done Zero
  | V (Tinterface _) (DIface (Some (t, d))) fl =>
      Done (V t d (mkflag false (flagRO fl)))
  | V (Tptr _ _) (DPtr None) _ => Done Zero
  | V (Tptr _ e) (DPtr (Some d)) fl => Done (V e d (mkflag true (flagRO fl)))
  | _ => Panic "reflect: call of reflect.Value.Elem on non-pointer Value"
  end.

(** [Value.IsNil], for the two kinds the converter asks it of. The data
    of the other nillable kinds (chan, func, map, slice, unsafe pointer)
    does not record nil-ness, and no function of [type.go] asks. *)
Definition Value_IsNil (v : Value) : exec bool :=
  match v with
  | V (Tinterface _) (DIface dyn) _ => Done (negb (is_Some_bool dyn))
  | V (Tptr _ _) (DPtr target) _ => Done (negb (is_Some_bool target))
  | _ => Panic "reflect: call of reflect.Value.IsNil on this Value"
  end.

(** [Value.Len]: the length of an array comes from its type. (The
    buffer of a channel is not part of the data.) *)
Definition Value_Len (v : Value) : exec nat :=
  match v with
  | V (Tarray _ n _) _ _ => Done n
  | V (Tslice _ _) (DList l) _ => Done (length l)
  | V (Tmap _ _ _) (DMap l) _ => Done (length l)
  | V (Tstring _) (DString s) _ => Done (String.length s)
  | _ => Panic "reflect: call of reflect.Value.Len on this Value"
  end.

Definition Value_Bool (v : Value) : exec bool :=
  match v with
  | V (Tbool _) (DBool b) _ => Done b
  | _ => Panic "reflect: call of reflect.Value.Bool on non-bool Value"
  end.

(** A [w]-bit pattern read as a signed and as an unsigned integer. *)
Definition wrap_signed (w z : Z) : Z := (z + 2 ^ (w - 1)) mod 2 ^ w - 2 ^ (w - 1).
Definition wrap_unsigned (w z : Z) : Z := z mod 2 ^ w.

(** [Value.Int] widens to int64, [Value.Uint] to uint64. *)
Definition Value_Int (v : Value) : exec Z :=
  match v with
  | V (Tint _ w) (DInt i) _ => Done (wrap_signed (bits w) i)
  | _ => Panic "reflect: call of reflect.Value.Int on non-int Value"
  end.

Definition Value_Uint (v : Value) : exec Z :=
  match v with
  | V (Tuint _ w) (DUint u) _ => Done (wrap_unsigned (bits w) u)
  | V (Tuintptr _) (DUint u) _ => Done (wrap_unsigned 64 u)
  | _ => Panic "reflect: call of reflect.Value.Uint on non-uint Value"
  end.

Definition Value_Float (v : Value) : exec spec_float :=
  match v with
  | V (Tfloat _ _) (DFloat f) _ => Done f
  | _ => Panic "reflect: call of reflect.Value.Float on non-float Value"
  end.

(** [Value.String] does not panic on other kinds: it names the type. *)
Definition Value_String (v : Value) : string :=
  match v with
  | Zero => "<invalid Value>"
  | V (Tstring _) (DString s) _ => s
  | V t _ _ => "<" +:+ Type_String t +:+ " Value>"
  end.

(** The elements of a byte sequence, read one by one. *)
Definition byte_of_data (d : data) : exec byte :=
  match d with
  | DUint u => Done (wrap_unsigned 8 u)
  | _ => Panic "reflect: corrupt byte"
  end.

(** [Value.Bytes]: "It panics if v's underlying value is not a slice of
    bytes or an addressable array of bytes." *)
Definition Value_Bytes (v : Value) : exec (list byte) :=
  match v with
  | V (Tslice _ e) (DList l) _ =>
      if Kind_eqb (Type_Kind e) Uint8 then mapM byte_of_data l
      else Panic "reflect.Value.Bytes of non-byte slice"
  | V (Tarray _ _ e) (DList l) fl =>
      if Kind_eqb (Type_Kind e) Uint8 then
        if flagAddr fl then mapM byte_of_data l
        else Panic "reflect.Value.Bytes of unaddressable byte array"
      else Panic "reflect.Value.Bytes of non-byte array"
  | _ => Panic "reflect: call of reflect.Value.Bytes on this Value"
  end.

(** [Value.Index]: an element of a slice is always addressable, one of an
    array when the array is; [flagRO] is inherited. *)
Definition Value_Index (v : Value) (i : nat) : exec Value :=
  match v with
  | V (Tarray _ n e) (DList l) fl =>
      match l !! i with
      | Some d => if (i <? n)%nat then Done (V e d fl)
                  else Panic "reflect: array index out of range"
      | None => Panic "reflect: array index out of range"
      end
  | V (Tslice _ e) (DList l) fl =>
      match l !! i with
      | Some d => Done (V e d (mkflag true (flagRO fl)))
      | None => Panic "reflect: slice index out of range"
      end
  | _ => Panic "reflect: call of reflect.Value.Index on this Value"
  end.

(** Equality of map keys, for the scalar kinds of key. *)
Definition key_eqb (a b : data) : bool :=
  match a, b with
  | DBool x, DBool y => Bool.eqb x y
  | DInt x, DInt y | DUint x, DUint y => x =? y
  | DString x, DString y => String.eqb x y
  | _, _ => false
  end.

(** [Value.MapKeys]: the keys, in the order the runtime iterates, which
    is the order of [entries] here and any order in Go. *)
Definition Value_MapKeys (v : Value) : exec (list Value) :=
  match v with
  | V (Tmap _ k _) (DMap entries) fl =>
      Done (map (fun kv => V k (fst kv) (mkflag false (flagRO fl))) entries)
  | _ => Panic "reflect: call of reflect.Value.MapKeys on non-map Value"
  end.

(** [Value.MapIndex]: the element under a key, never addressable; the zero
    Value when the key is not in the map. *)
Definition Value_MapIndex (v key : Value) : exec Value :=
  match v, key with
  | V (Tmap _ _ e) (DMap entries) fl, V _ kd kfl =>
      match find (fun kv => key_eqb (fst kv) kd) entries with
      | Some kv => Done (V e (snd kv) (mkflag false (flagRO fl || flagRO kfl)))
      | None => Done Zero
      end
  | _, _ => Panic "reflect: call of reflect.Value.MapIndex on this Value"
  end.

(** [Value.Field]: field [i] of a struct; reading an unexported field
    sets [flagRO]. *)
Definition Value_Field (v : Value) (i : nat) : exec Value :=
  match v with
  | V (Tstruct _ fts) (DStruct fds) fl =>
      match fts !! i, fds !! i with
      | Some (_, exported, ft), Some d =>
          Done (V ft d (mkflag (flagAddr fl) (flagRO fl || negb exported)))
      | _, _ => Panic "reflect: Field index out of range"
      end
  | _ => Panic "reflect: call of reflect.Value.Field on non-struct Value"
  end.

(** The predeclared type uint8 and the type of a byte slice. *)
Definition uint8Type : rtype := Tuint "uint8" W8.
Definition bytesType : rtype := Tslice "[]uint8" uint8Type.

(** [reflect.ValueOf(bytes)] for a byte slice. *)
Definition ValueOf_bytes (b : list byte) : Value :=
  ValueOf bytesType (DList (map DUint b)).

(** [reflect.Copy(dst, src)]: "Dst and src each must have kind Slice or
    Array, and dst and src must have the same element type"; neither may
    come from an unexported field, and an array destination must be
    addressable. Copies [min (len dst) (len src)] elements; the result is
    the content of [dst] afterwards and the number of elements copied. *)
Definition Copy (dst src : Value) : exec (list data * nat) :=
  match dst, src with
  | V dt (DList dl) dfl, V st (DList sl) sfl =>
      match Type_Kind dt, Type_Kind st with
      | (Array | Slice), (Array | Slice) =>
          if Kind_eqb (Type_Kind dt) Array && negb (flagAddr dfl)
          then Panic "reflect.Copy: unaddressable destination"
          else if flagRO dfl || flagRO sfl
          then Panic "reflect.Copy: value obtained using unexported field"
          else
            de ← Type_Elem dt;
            se ← Type_Elem st;
            if rtype_eqb de se then
              let n := Nat.min (length dl) (length sl) in
              Done (take n sl ++ drop n dl, n)
            else Panic ("reflect.Copy: " +:+ Type_String de +:+ " != "
                        +:+ Type_String se)
      | _, _ => Panic "reflect: call of reflect.Copy on this Value"
      end
  | _, _ => Panic "reflect: call of reflect.Copy on this Value"
  end.

End reflect.

Import reflect(rtype, data, Value).

(** ** The value model of [type.go] *)

Inductive plistKind : Set :=
| Invalid | Dictionary | Array | String | Integer | Real | Boolean | Data.

(** What the [interface{}] field [value] of a [plistValue] holds: one
    constructor per Go type the converter stores there. A [*plistValue]
    inside a slice or a map is an option. *)
Inductive plistValue : Type :=
| mkPlistValue (kind : plistKind) (value : payload)
with payload : Type :=
| GoString (s : string)
| GoInt64 (i : Z)
| GoUint64 (u : Z)
| GoFloat64 (f : spec_float)
| GoBool (b : bool)
| GoBytes (b : list byte)
| GoSlice (l : list (option plistValue))
| GoMap (m : gmap string (option plistValue)).

Definition kind (p : plistValue) : plistKind :=
  match p with mkPlistValue k _ => k end.
Definition value (p : plistValue) : payload :=
  match p with mkPlistValue _ v => v end.

(** The errors a conversion can return: the package's [UnknownTypeError],
    an [errors.New] of the package, and an error value made by a user's
    [MarshalText], which is no value of the other two. *)
Inductive error (E : Type) : Type :=
| UnknownTypeError (Type_ : rtype)
| errorsNew (text : string)
| marshalError (e : E).
Arguments UnknownTypeError {E} Type_.
Arguments errorsNew {E} text.
Arguments marshalError {E} e.

Definition Error {E : Type} (u : error E) : option string :=
  match u with
  | UnknownTypeError t => Some ("Unknown type " +:+ reflect.Type_String t)
  | errorsNew s => Some s
  | marshalError _ => None
  end.

(** [v.Float() == 0]: IEEE equality with zero, which both zeros satisfy. *)
Definition float_is_zero (f : spec_float) : bool := SFeqb f (S754_zero false).

(** ** [isEmptyValue] *)

Definition isEmptyValue (v : Value) : exec bool :=
  match reflect.Value_Kind v with
  | reflect.Array | reflect.Map | reflect.Slice | reflect.String =>
      n ← reflect.Value_Len v; mret (Nat.eqb n 0)
  | reflect.Bool =>
      b ← reflect.Value_Bool v; mret (negb b)
  | reflect.Int | reflect.Int8 | reflect.Int16 | reflect.Int32 | reflect.Int64 =>
      i ← reflect.Value_Int v; mret (i =? 0)
  | reflect.Uint | reflect.Uint8 | reflect.Uint16 | reflect.Uint32
  | reflect.Uint64 | reflect.Uintptr =>
      u ← reflect.Value_Uint v; mret (u =? 0)
  | reflect.Float32 | reflect.Float64 =>
      f ← reflect.Value_Float v; mret (float_is_zero f)
  | reflect.Interface | reflect.Ptr =>
      reflect.Value_IsNil v
  | _ => mret false
  end.

(** ** Well-formed values, and the Emptiness Predicate in the spec's words *)

(** The data of a [Value] has the shape of its type, an array the length
    its type says, an integer a value of its width: what Go's type system
    guarantees of every [reflect.Value]. *)
Definition wellFormed (v : Value) : bool :=
  match v with
  | reflect.Zero => true
  | reflect.V t d _ =>
      match t, d with
      | reflect.Tbool _, reflect.DBool _ => true
      | reflect.Tint _ w, reflect.DInt i =>
          (- 2 ^ (reflect.bits w - 1) <=? i) && (i <? 2 ^ (reflect.bits w - 1))
      | reflect.Tuint _ w, reflect.DUint u =>
          (0 <=? u) && (u <? 2 ^ reflect.bits w)
      | reflect.Tuintptr _, reflect.DUint u => (0 <=? u) && (u <? 2 ^ 64)
      | reflect.Tfloat _ _, reflect.DFloat _ => true
      | reflect.Tstring _, reflect.DString _ => true
      | reflect.Tarray _ n _, reflect.DList l => Nat.eqb (length l) n
      | reflect.Tslice _ _, reflect.DList _ => true
      | reflect.Tmap _ _ _, reflect.DMap _ => true
      | reflect.Tptr _ _, reflect.DPtr _ => true
      | reflect.Tinterface _, reflect.DIface _ => true
      | reflect.Tstruct _ fts, reflect.DStruct fds =>
          Nat.eqb (length fts) (length fds)
      | (reflect.Tcomplex _ _ | reflect.Tchan _ _ | reflect.Tfunc _
         | reflect.TunsafePointer _), reflect.DOpaque => true
      | _, _ => false
      end
  end.

(** The classes of value the spec's Emptiness Predicate speaks of. *)
Inductive valueClass : Set :=
| SequenceValue | MappingValue | TextValue | BooleanValue
| SignedValue | UnsignedValue | FloatingValue | ReferenceValue | OtherValue.

Definition classOf (t : rtype) : valueClass :=
  match t with
  | reflect.Tarray _ _ _ | reflect.Tslice _ _ => SequenceValue
  | reflect.Tmap _ _ _ => MappingValue
  | reflect.Tstring _ => TextValue
  | reflect.Tbool _ => BooleanValue
  | reflect.Tint _ _ => SignedValue
  | reflect.Tuint _ _ | reflect.Tuintptr _ => UnsignedValue
  | reflect.Tfloat _ _ => FloatingValue
  | reflect.Tptr _ _ | reflect.Tinterface _ => ReferenceValue
  | _ => OtherValue
  end.

(** "A sequence, mapping, or text value is empty iff its length is zero; a
    boolean is empty iff false; any numeric value is empty iff it equals
    zero; a nullable/optional reference is empty iff absent; every other
    kind is never considered empty." *)
Definition isEmptySpec (v : Value) : bool :=
  match v with
  | reflect.Zero => false
  | reflect.V t d _ =>
      match classOf t, d with
      | SequenceValue, reflect.DList l => bool_decide (length l = 0%nat)
      | MappingValue, reflect.DMap m => bool_decide (length m = 0%nat)
      | TextValue, reflect.DString s => bool_decide (String.length s = 0%nat)
      | BooleanValue, reflect.DBool b => bool_decide (b = false)
      | SignedValue, reflect.DInt i => bool_decide (i = 0)
      | UnsignedValue, reflect.DUint u => bool_decide (u = 0)
      | FloatingValue, reflect.DFloat f => float_is_zero f
      | ReferenceValue, reflect.DPtr target => bool_decide (target = None)
      | ReferenceValue, reflect.DIface dyn => bool_decide (dyn = None)
      | _, _ => false
      end
  end.

(** The elements of a slice or an array, as [Value.Index] yields them. *)
Definition elements (val : Value) : list Value :=
  match val with
  | reflect.V (reflect.Tslice _ e) (reflect.DList l) fl =>
      map (fun d => reflect.V e d (reflect.mkflag true (reflect.flagRO fl))) l
  | reflect.V (reflect.Tarray _ _ e) (reflect.DList l) fl =>
      map (fun d => reflect.V e d fl) l
  | _ => []
  end.

(** The data of a map with text keys, from its entries. *)
Definition textKeyed (kvs : list (string * data)) : data :=
  reflect.DMap (map (fun kv => (reflect.DString kv.1, kv.2)) kvs).

(** The nesting depth of the data of a value: the converter goes one call
    deeper for each level of elements or fields. *)
Fixpoint depth (d : data) : nat :=
  match d with
  | reflect.DList l => S (foldr (fun x n => Nat.max (depth x) n) 0%nat l)
  | reflect.DMap m => S (foldr (fun kv n => Nat.max (depth (snd kv)) n) 0%nat m)
  | reflect.DStruct l => S (foldr (fun x n => Nat.max (depth x) n) 0%nat l)
  | reflect.DPtr (Some d') => S (depth d')
  | reflect.DIface (Some (_, d')) => S (depth d')
  | _ => 0%nat
  end.

Definition Value_depth (v : Value) : nat :=
  match v with reflect.Zero => 0%nat | reflect.V _ d _ => depth d end.

(** ** The converter *)

Section Converter.

(** The error values of the user's [MarshalText] methods. *)
Variable E : Type.

(** [t.Implements(u)]: the method sets of the program's types. *)
Variable Implements : rtype -> rtype -> bool.

(** The [MarshalText] method of the dynamic type of a value. *)
Variable MarshalText : rtype -> data -> list byte * option E.

(** Modelled from the spec: the declarations of [fieldInfo] and [typeInfo],
    which are not in [type.go]. "Each descriptor supplies an export name,
    an omit-if-empty flag, and an accessor that extracts the field's current
    value from a given instance"; [type.go] reads them as [finfo.name],
    [finfo.omitEmpty], [finfo.value(val)] and [tinfo.fields]. *)
Record fieldInfo : Type := mkFieldInfo {
  fieldInfo_name : string;
  fieldInfo_omitEmpty : bool;
  fieldInfo_value : Value -> exec Value
}.

Record typeInfo : Type := mkTypeInfo { fields : list fieldInfo }.

(** [getTypeInfo(typ)] returns a [*typeInfo] and an error. *)
Variable getTypeInfo : rtype -> option typeInfo * option (error E).

Definition result : Type := option plistValue * option (error E).

Definition textMarshalerType : rtype := reflect.Tinterface "encoding.TextMarshaler".

(** The type assertion [x.(encoding.TextMarshaler)]: it panics on the nil
    interface and on a dynamic type without the method. *)
Definition assertTextMarshaler (x : option (rtype * data)) : exec (rtype * data) :=
  match x with
  | None => Panic "interface conversion: interface is nil, not encoding.TextMarshaler"
  | Some (t, d) =>
      if Implements t textMarshalerType then Done (t, d)
      else Panic "interface conversion: missing method MarshalText"
  end.

Definition stringMarshalableToPlistValue (marshalable : rtype * data) : result :=
  let '(s, err) := MarshalText marshalable.1 marshalable.2 in
  match err with
  | Some e => (None, Some (marshalError e))
  | None => (Some (mkPlistValue String (GoBytes s)), None)
  end.

(** The loop of [structToPlistValue] over [tinfo.fields], with the return
    that follows it. [rec] is the recursive call of [valueToPlistValue]. *)
Fixpoint structFields (rec : Value -> exec result) (val : Value)
    (finfos : list fieldInfo) (subvalues : gmap string (option plistValue))
    : exec result :=
  match finfos with
  | [] => mret (Some (mkPlistValue Dictionary (GoMap subvalues)), None)
  | finfo :: rest =>
      value ← fieldInfo_value finfo val;
      skip ← (if negb (reflect.Value_IsValid value) then mret true
              else if fieldInfo_omitEmpty finfo then isEmptyValue value
              else mret false);
      if (skip : bool) then structFields rec val rest subvalues
      else
        r ← rec value;
        match r with
        | (_, Some err) => mret (None, Some err)
        | (v, None) =>
            structFields rec val rest (<[fieldInfo_name finfo := v]> subvalues)
        end
  end.

Definition structToPlistValue (rec : Value -> exec result)
    (typ : rtype) (val : Value) : exec result :=
  match (getTypeInfo typ).1 with
  | None => Panic "runtime error: invalid memory address or nil pointer dereference"
  | Some tinfo => structFields rec val (fields tinfo) ∅
  end.

(** The element loop of the Array branch: [idx] counts up while
    [remaining = length - idx] counts down. *)
Fixpoint arrayElems (rec : Value -> exec result) (val : Value)
    (idx remaining : nat) (subvalues : list (option plistValue))
    : exec result :=
  match remaining with
  | O => mret (Some (mkPlistValue Array (GoSlice subvalues)), None)
  | S remaining' =>
      elem ← reflect.Value_Index val idx;
      r ← rec elem;
      match r with
      | (_, Some err) => mret (None, Some err)
      | (v, None) =>
          arrayElems rec val (S idx) remaining' (<[idx := v]> subvalues)
      end
  end.

(** The loop of the Map branch over [val.MapKeys()]. *)
Fixpoint mapEntries (rec : Value -> exec result) (val : Value)
    (keys : list Value) (subvalues : gmap string (option plistValue))
    : exec result :=
  match keys with
  | [] => mret (Some (mkPlistValue Dictionary (GoMap subvalues)), None)
  | keyv :: rest =>
      elem ← reflect.Value_MapIndex val keyv;
      r ← rec elem;
      match r with
      | (_, Some err) => mret (None, Some err)
      | (v, None) =>
          mapEntries rec val rest (<[reflect.Value_String keyv := v]> subvalues)
      end
  end.

(** The byte payload of the Data branch. *)
Definition dataBytes (val : Value) : exec (list byte) :=
  if reflect.Value_CanAddr val then reflect.Value_Bytes val
  else
    n ← reflect.Value_Len val;
    let bytes := replicate n 0 in
    copied ← reflect.Copy (reflect.ValueOf_bytes bytes) val;
    mapM reflect.byte_of_data copied.1.

(** The [switch typ.Kind()] statement. [Some r] is a [return r]; [None]
    would be a switch that ends without returning, after which the
    function goes on to its last statement. *)
Definition kindSwitch (rec : Value -> exec result)
    (typ : rtype) (val : Value) : exec (option result) :=
  match reflect.Type_Kind typ with
  | reflect.String =>
      mret (Some (Some (mkPlistValue String (GoString (reflect.Value_String val))), None))
  | reflect.Int | reflect.Int8 | reflect.Int16 | reflect.Int32 | reflect.Int64 =>
      i ← reflect.Value_Int val;
      mret (Some (Some (mkPlistValue Integer (GoInt64 i)), None))
  | reflect.Uint | reflect.Uint8 | reflect.Uint16 | reflect.Uint32 | reflect.Uint64 =>
      u ← reflect.Value_Uint val;
      mret (Some (Some (mkPlistValue Integer (GoUint64 u)), None))
  | reflect.Float32 | reflect.Float64 =>
      f ← reflect.Value_Float val;
      mret (Some (Some (mkPlistValue Real (GoFloat64 f)), None))
  | reflect.Bool =>
      b ← reflect.Value_Bool val;
      mret (Some (Some (mkPlistValue Boolean (GoBool b)), None))
  | reflect.Slice | reflect.Array =>
      elemType ← reflect.Type_Elem typ;
      if reflect.Kind_eqb (reflect.Type_Kind elemType) reflect.Uint8 then
        bytes ← dataBytes val;
        mret (Some (Some (mkPlistValue Data (GoBytes bytes)), None))
      else
        length ← reflect.Value_Len val;
        r ← arrayElems rec val 0 length (replicate length None);
        mret (Some r)
  | reflect.Map =>
      keyType ← reflect.Type_Key typ;
      if negb (reflect.Kind_eqb (reflect.Type_Kind keyType) reflect.String) then
        mret (Some (None, Some (UnknownTypeError typ)))
      else
        keys ← reflect.Value_MapKeys val;
        r ← mapEntries rec val keys ∅;
        mret (Some r)
  | _ =>
      mret (Some (None, Some (UnknownTypeError typ)))
  end.

(** The address-level probe for the text marshaler (lines 96-101):
    [Some r] is a [return r], [None] goes on. *)
Definition addrProbe (val : Value) : exec (option result) :=
  if reflect.Value_CanAddr val then
    pv ← reflect.Value_Addr val;
    ci ← reflect.Value_CanInterface pv;
    pt ← reflect.Value_Type pv;
    if ci && Implements pt textMarshalerType then
      i ← reflect.Value_Interface pv;
      m ← assertTextMarshaler i;
      mret (Some (stringMarshalableToPlistValue m))
    else mret None
  else mret None.

(** "Descend into pointers or interfaces" (lines 104-107): the new
    [val] and [typ]. *)
Definition descend (typ : rtype) (val : Value) : exec (Value * rtype) :=
  if reflect.Kind_eqb (reflect.Type_Kind typ) reflect.Ptr
     || reflect.Kind_eqb (reflect.Type_Kind typ) reflect.Interface
  then
    val' ← reflect.Value_Elem val;
    typ' ← reflect.Value_Type val';
    mret (val', typ')
  else mret (val, typ).

(** Record handling and the kind switch, with the statement after the
    switch (lines 109-163). *)
Definition dispatch (rec : Value -> exec result)
    (typ : rtype) (val : Value) : exec result :=
  if reflect.Kind_eqb (reflect.Type_Kind typ) reflect.Struct then
    structToPlistValue rec typ val
  else
    switched ← kindSwitch rec typ val;
    match switched with
    | Some r => mret r
    | None => mret (None, Some (errorsNew "Wat"))
    end.

(** The body of [valueToPlistValue], statement by statement. *)
Definition valueToPlistValue_body (rec : Value -> exec result)
    (val : Value) : exec result :=
  typ ← reflect.Value_Type val;
  if negb (reflect.Value_IsValid val) then mret (None, None)
  else
    ci ← reflect.Value_CanInterface val;
    if ci && Implements typ textMarshalerType then
      i ← reflect.Value_Interface val;
      m ← assertTextMarshaler i;
      mret (stringMarshalableToPlistValue m)
    else
      probed ← addrProbe val;
      match probed with
      | Some r => mret r
      | None =>
          vt ← descend typ val;
          dispatch rec vt.2 vt.1
      end.

Fixpoint valueToPlistValue (fuel : nat) (val : Value) : exec result :=
  match fuel with
  | O => OutOfFuel
  | S fuel' => valueToPlistValue_body (valueToPlistValue fuel') val
  end.

(** *** Notions the statements use *)

(** The value-level probe of line 93 finds the capability. *)
Definition exposesText (val : Value) : bool :=
  match val with
  | reflect.Zero => false
  | reflect.V t _ fl =>
      negb (reflect.flagRO fl) && Implements t textMarshalerType
  end.

(** The address-level probe of lines 96-98 finds it. *)
Definition exposesTextByAddr (val : Value) : bool :=
  match val with
  | reflect.Zero => false
  | reflect.V t _ fl =>
      reflect.flagAddr fl && negb (reflect.flagRO fl)
      && Implements (reflect.PtrTo t) textMarshalerType
  end.

(** The receiver the probes select for [MarshalText]: the value itself
    (for a value of kind Interface, what it holds) when the value-level
    probe succeeds; otherwise, when the address-level probe succeeds, a
    pointer to the value. *)
Definition textReceiver (val : Value) : option (rtype * data) :=
  match val with
  | reflect.Zero => None
  | reflect.V t d fl =>
      if exposesText val then
        match t, d with
        | reflect.Tinterface _, reflect.DIface dyn => dyn
        | reflect.Tinterface _, _ => None
        | _, _ => Some (t, d)
        end
      else if exposesTextByAddr val then
        Some (reflect.PtrTo t, reflect.DPtr (Some d))
      else None
  end.

(** Neither probe finds it: the value is converted by its shape. *)
Definition plain (val : Value) : bool :=
  negb (exposesText val) && negb (exposesTextByAddr val).

(** What the loop of [structToPlistValue] does with one field: it skips
    it, or it stores the node [v] under the name of the field. *)
Inductive fieldOutcome : Type :=
| Skipped
| Emitted (v : option plistValue).

(** The spec's rule for a field: skipped if its value is invalid, or if
    "omit if empty" is set and the Emptiness Predicate judges the value
    empty; otherwise converted by [rec] and stored. *)
Definition fieldStep (rec : Value -> exec result) (val : Value)
    (finfo : fieldInfo) (o : fieldOutcome) : Prop :=
  exists x,
    fieldInfo_value finfo val = Done x /\
    match o with
    | Skipped =>
        reflect.Value_IsValid x = false
        \/ (fieldInfo_omitEmpty finfo = true /\ isEmptyValue x = Done true)
    | Emitted v =>
        reflect.Value_IsValid x = true
        /\ (fieldInfo_omitEmpty finfo = false \/ isEmptyValue x = Done false)
        /\ rec x = Done (v, None)
    end.

(** The field fails: it is not skipped and its conversion returns [err]. *)
Definition fieldFails (rec : Value -> exec result) (val : Value)
    (finfo : fieldInfo) (err : error E) : Prop :=
  exists x v,
    fieldInfo_value finfo val = Done x
    /\ reflect.Value_IsValid x = true
    /\ (fieldInfo_omitEmpty finfo = false \/ isEmptyValue x = Done false)
    /\ rec x = Done (v, Some err).

(** The entries the stored fields make, in the order of the descriptors. *)
Fixpoint emitted (finfos : list fieldInfo) (outs : list fieldOutcome)
    : list (string * option plistValue) :=
  match finfos, outs with
  | finfo :: finfos', Emitted v :: outs' =>
      (fieldInfo_name finfo, v) :: emitted finfos' outs'
  | _ :: finfos', Skipped :: outs' => emitted finfos' outs'
  | _, _ => []
  end.

End Converter.

(** ** Well-formed trees *)

(** The payload of a node has the Go type its kind goes with, no node is of
    kind [Invalid], and the children of an Array or a Dictionary are nodes
    of the same sort, none of them a nil pointer. *)
Inductive wellKinded : plistValue -> Prop :=
| wk_string s : wellKinded (mkPlistValue String (GoString s))
| wk_text b : wellKinded (mkPlistValue String (GoBytes b))
| wk_int i : wellKinded (mkPlistValue Integer (GoInt64 i))
| wk_uint u : wellKinded (mkPlistValue Integer (GoUint64 u))
| wk_real f : wellKinded (mkPlistValue Real (GoFloat64 f))
| wk_bool b : wellKinded (mkPlistValue Boolean (GoBool b))
| wk_data b : wellKinded (mkPlistValue Data (GoBytes b))
| wk_array l :
    Forall (fun o => exists p, o = Some p /\ wellKinded p) l ->
    wellKinded (mkPlistValue Array (GoSlice l))
| wk_dictionary (m : gmap string (option plistValue)) :
    (forall k o, m !! k = Some o -> exists p, o = Some p /\ wellKinded p) ->
    wellKinded (mkPlistValue Dictionary (GoMap m)).

(** The kinds of value the switch has no case for. *)
Definition unsupportedKind (k : reflect.Kind) : bool :=
  match k with
  | reflect.Uintptr | reflect.Complex64 | reflect.Complex128
  | reflect.Chan | reflect.Func | reflect.UnsafePointer => true
  | _ => false
  end.

(** ** The record of the spec's example *)

(** [{Name: text ["omit if empty"], Count: integer}], its descriptors, and
    the instance with [Name = ""] and [Count = 0]. *)
Definition exampleRecordType : rtype :=
  reflect.Tstruct "Record"
    [("Name", true, reflect.Tstring "string");
     ("Count", true, reflect.Tint "int" reflect.W0)].

Definition exampleRecordInfo : typeInfo :=
  mkTypeInfo
    [mkFieldInfo "Name" true (fun v => reflect.Value_Field v 0);
     mkFieldInfo "Count" false (fun v => reflect.Value_Field v 1)].

Definition exampleRecord : Value :=
  reflect.ValueOf exampleRecordType
    (reflect.DStruct [reflect.DString ""; reflect.DInt 0]).

(** ** Small programs for the examples *)

Module Examples.

(** A program none of whose types has a [MarshalText] method. *)
Definition noText (t u : rtype) : bool := false.
Definition noMarshal (t : rtype) (d : data) : list byte * option Empty_set :=
  ([], None).
Definition noInfo (t : rtype) : option typeInfo * option (error Empty_set) :=
  (None, None).

(** A program whose provider knows the record of the spec's example. *)
Definition recordInfo (t : rtype) : option typeInfo * option (error Empty_set) :=
  if reflect.rtype_eqb t exampleRecordType then (Some exampleRecordInfo, None)
  else (None, Some (UnknownTypeError t)).

Definition intType : rtype := reflect.Tint "int" reflect.W0.
Definition uint64Type : rtype := reflect.Tuint "uint64" reflect.W64.
Definition stringType : rtype := reflect.Tstring "string".
Definition ptrIntType : rtype := reflect.Tptr "*int" intType.
Definition ptrPtrIntType : rtype := reflect.Tptr "**int" ptrIntType.

(** [5], [&5] and [&&5]; a nil [*int]. *)
Definition five : Value := reflect.ValueOf intType (reflect.DInt 5).
Definition ptrFive : Value :=
  reflect.ValueOf ptrIntType (reflect.DPtr (Some (reflect.DInt 5))).
Definition ptrPtrFive : Value :=
  reflect.ValueOf ptrPtrIntType
    (reflect.DPtr (Some (reflect.DPtr (Some (reflect.DInt 5))))).
Definition nilPtr : Value := reflect.ValueOf ptrIntType (reflect.DPtr None).

(** [[]int{1, 2}] and [map[string]int{"a": 1, "b": 2}]. *)
Definition oneTwo : Value :=
  reflect.ValueOf (reflect.Tslice "[]int" intType)
    (reflect.DList [reflect.DInt 1; reflect.DInt 2]).
Definition mapAB : Value :=
  reflect.ValueOf (reflect.Tmap "map[string]int" stringType intType)
    (textKeyed [("a", reflect.DInt 1); ("b", reflect.DInt 2)]).

(** [type MyByte uint8] and a [[]MyByte{1, 2}] passed by value. *)
Definition myByteType : rtype := reflect.Tuint "main.MyByte" reflect.W8.
Definition myBytes : Value :=
  reflect.ValueOf (reflect.Tslice "[]main.MyByte" myByteType)
    (reflect.DList [reflect.DUint 1; reflect.DUint 2]).

(** A program with a record type [Stamp] that has a [MarshalText] method,
    which renders every [Stamp] as the two bytes of "ok". *)
Definition stampType : rtype :=
  reflect.Tstruct "main.Stamp" [("Sec", true, intType)].
Definition stampText (t u : rtype) : bool :=
  reflect.rtype_eqb t stampType && reflect.rtype_eqb u textMarshalerType.
Definition stampMarshal (t : rtype) (d : data) : list byte * option Empty_set :=
  ([111; 107], None).
Definition stamp : Value :=
  reflect.ValueOf stampType (reflect.DStruct [reflect.DInt 7]).

End Examples.

Module MoreExamples.

Import Examples.

Definition noFlags : reflect.flag := reflect.mkflag false false.

(** ["hi"], a nil [func()], and the bytes [0x00, 0xFF, 0x10] of the spec. *)
Definition hi : Value := reflect.ValueOf stringType (reflect.DString "hi").
Definition funcType : rtype := reflect.Tfunc "func()".
Definition nilFunc : Value := reflect.ValueOf funcType reflect.DOpaque.
Definition specBytes : Value := reflect.ValueOf_bytes [0; 255; 16].

(** The same bytes, reached through an unexported field of a struct that
    was passed by value. *)
Definition hiddenBytes : Value :=
  reflect.V reflect.bytesType
    (reflect.DList (map reflect.DUint [0; 255; 16])) (reflect.mkflag false true).

(** A program in which the interface type [encoding.TextMarshaler] is the
    one type with the method, and a nil field of that type. *)
Definition ifaceText (t u : rtype) : bool :=
  reflect.rtype_eqb t textMarshalerType && reflect.rtype_eqb u textMarshalerType.
Definition nilMarshaler : Value :=
  reflect.ValueOf textMarshalerType (reflect.DIface None).

(** A [Stamp] reached through an unexported field. *)
Definition hiddenStamp : Value :=
  reflect.V stampType (reflect.DStruct [reflect.DInt 7])
    (reflect.mkflag false true).

(** [struct { Next *int }] with [Next] nil, and its descriptor, with
    and without "omit if empty". *)
Definition nodeType : rtype := reflect.Tstruct "Node" [("Next", true, ptrIntType)].
Definition node : Value :=
  reflect.ValueOf nodeType (reflect.DStruct [reflect.DPtr None]).
Definition nextField (omit : bool) : fieldInfo :=
  mkFieldInfo "Next" omit (fun v => reflect.Value_Field v 0).
Definition nodeInfo (t : rtype) : option typeInfo * option (error Empty_set) :=
  (Some (mkTypeInfo [nextField false]), None).

(** [[]*int{&5, nil}]. *)
Definition ptrs : Value :=
  reflect.ValueOf (reflect.Tslice "[]*int" ptrIntType)
    (reflect.DList [reflect.DPtr (Some (reflect.DInt 5)); reflect.DPtr None]).

(** [struct { A, B int }{1, 2}] with both fields described under the
    name "A". *)
Definition pairType : rtype :=
  reflect.Tstruct "Pair" [("A", true, intType); ("B", true, intType)].
Definition pair : Value :=
  reflect.ValueOf pairType (reflect.DStruct [reflect.DInt 1; reflect.DInt 2]).
Definition firstA : fieldInfo :=
  mkFieldInfo "A" false (fun v => reflect.Value_Field v 0).
Definition secondA : fieldInfo :=
  mkFieldInfo "A" false (fun v => reflect.Value_Field v 1).
Definition pairInfo (t : rtype) : option typeInfo * option (error Empty_set) :=
  (Some (mkTypeInfo [firstA; secondA]), None).

(** The map of [Examples.mapAB] with its keys handed out in the other
    order, and the node of an integer element. *)
Definition mapBA : Value :=
  reflect.ValueOf (reflect.Tmap "map[string]int" stringType intType)
    (textKeyed [("b", reflect.DInt 2); ("a", reflect.DInt 1)]).
Definition intNode (kv : string * data) : option plistValue :=
  match kv.2 with
  | reflect.DInt i => Some (mkPlistValue Integer (GoInt64 i))
  | _ => None
  end.

(** [[]int{}]. *)
Definition noInts : Value :=
  reflect.ValueOf (reflect.Tslice "[]int" intType) (reflect.DList []).

(** A [Stamp] held by an [interface{}], in a program whose provider
    describes the one field of [Stamp]. *)
Definition boxedStamp : Value :=
  reflect.ValueOf (reflect.Tinterface "interface {}")
    (reflect.DIface (Some (stampType, reflect.DStruct [reflect.DInt 7]))).
Definition stampInfo (t : rtype) : option typeInfo * option (error Empty_set) :=
  (Some (mkTypeInfo [mkFieldInfo "Sec" false (fun v => reflect.Value_Field v 0)]),
   None).

End MoreExamples.

(** * Properties *)

(** ** Integers of a width *)

Lemma wrap_signed_id w i :
  0 < w -> - 2 ^ (w - 1) <= i < 2 ^ (w - 1) -> reflect.wrap_signed w i = i.
Proof.
  intros Hw Hi. unfold reflect.wrap_signed.
  assert (H2 : 2 ^ w = 2 * 2 ^ (w - 1)).
  { rewrite <- Z.pow_succ_r by lia. f_equal. lia. }
  rewrite Z.mod_small by lia. lia.
Qed.

Lemma wrap_unsigned_id w u :
  0 <= u < 2 ^ w -> reflect.wrap_unsigned w u = u.
Proof. intros Hu. unfold reflect.wrap_unsigned. apply Z.mod_small. lia. Qed.

Lemma bits_pos w : 0 < reflect.bits w.
Proof. destruct w; reflexivity. Qed.

Lemma Z_eqb_decide (x y : Z) : (x =? y) = bool_decide (x = y).
Proof. case_bool_decide; [by apply Z.eqb_eq|by apply Z.eqb_neq]. Qed.

Lemma nat_eqb_decide (x y : nat) : Nat.eqb x y = bool_decide (x = y).
Proof. case_bool_decide; [by apply Nat.eqb_eq|by apply Nat.eqb_neq]. Qed.

(** ** The Emptiness Predicate *)

(** C9. On every well-formed value [isEmptyValue] returns, without a panic,
    what the spec's Emptiness Predicate says: a sequence, mapping or text
    is empty iff its length is zero, a boolean iff false, a signed,
    unsigned or floating-point number iff zero, a pointer or interface iff
    nil, and a value of any other kind (the zero Value too) never. *)
Theorem isEmptyValue_spec (v : Value) :
  wellFormed v = true -> isEmptyValue v = Done (isEmptySpec v).
Proof.
  destruct v as [|t d fl]; [reflexivity|].
  destruct t as [n|n w|n w|n|n w|n w|n|n len e|n e|n k e|n e|n e|n|n|n fs|n];
    destruct d; try discriminate; intros Hwf; cbn in Hwf.
  - (* bool *) by destruct b.
  - (* signed *)
    apply andb_prop in Hwf as [Hlo%Z.leb_le Hhi%Z.ltb_lt].
    assert (Hid := wrap_signed_id (reflect.bits w) i (bits_pos w) (conj Hlo Hhi)).
    destruct w; cbn in *; rewrite Hid; f_equal; apply Z_eqb_decide.
  - (* unsigned *)
    apply andb_prop in Hwf as [Hlo%Z.leb_le Hhi%Z.ltb_lt].
    assert (Hid := wrap_unsigned_id (reflect.bits w) u (conj Hlo Hhi)).
    destruct w; cbn in *; rewrite Hid; f_equal; apply Z_eqb_decide.
  - (* uintptr *)
    apply andb_prop in Hwf as [Hlo%Z.leb_le Hhi%Z.ltb_lt].
    cbn. rewrite (wrap_unsigned_id 64 u (conj Hlo Hhi)). f_equal; apply Z_eqb_decide.
  - (* float *) by destruct w.
  - (* complex *) by destruct w.
  - (* string *) cbn. f_equal. apply nat_eqb_decide.
  - (* array *)
    apply Nat.eqb_eq in Hwf. subst len. cbn. f_equal. apply nat_eqb_decide.
  - (* slice *) cbn. f_equal. apply nat_eqb_decide.
  - (* map *) cbn. f_equal. apply nat_eqb_decide.
  - (* pointer *) by destruct target.
  - (* chan *) reflexivity.
  - (* func *) reflexivity.
  - (* interface *) by destruct dyn.
  - (* struct *) reflexivity.
  - (* unsafe pointer *) reflexivity.
Qed.

Section ConverterFacts.

Context {E : Type}.
Variable Implements : rtype -> rtype -> bool.
Variable MarshalText : rtype -> data -> list byte * option E.
Variable getTypeInfo : rtype -> option typeInfo * option (error E).

#[local] Abbreviation convert :=
  (valueToPlistValue E Implements MarshalText getTypeInfo).
#[local] Abbreviation body :=
  (valueToPlistValue_body E Implements MarshalText getTypeInfo).
#[local] Abbreviation dispatch' := (dispatch E getTypeInfo).
#[local] Abbreviation plain' := (plain Implements).

Lemma convert_S fuel val : convert (S fuel) val = body (convert fuel) val.
Proof. reflexivity. Qed.

(** A value that exposes no text rendering goes through the descent and
    then to record handling or the kind switch. *)
Lemma body_plain rec t d fl :
  plain' (reflect.V t d fl) = true ->
  body rec (reflect.V t d fl)
  = (vt ← descend t (reflect.V t d fl); dispatch' rec vt.2 vt.1).
Proof.
  unfold plain, exposesText, exposesTextByAddr.
  intros [Hv Ha]%andb_prop.
  apply negb_true_iff in Hv. apply negb_true_iff in Ha.
  unfold valueToPlistValue_body, addrProbe. cbn.
  rewrite Hv. cbn.
  destruct (reflect.flagAddr fl) eqn:Haddr; cbn; [|reflexivity].
  cbn in Ha. rewrite Ha. reflexivity.
Qed.

Lemma descend_other t val :
  reflect.Type_Kind t <> reflect.Ptr ->
  reflect.Type_Kind t <> reflect.Interface ->
  descend t val = Done (val, t).
Proof.
  intros Hp Hi. unfold descend.
  destruct (reflect.Type_Kind t); try reflexivity; congruence.
Qed.

Lemma descend_Elem t d fl x :
  reflect.Value_Elem (reflect.V t d fl) = Done x ->
  descend t (reflect.V t d fl)
  = (typ' ← reflect.Value_Type x; mret (x, typ')).
Proof.
  intros HE. unfold descend.
  destruct t; try discriminate HE;
    cbn [reflect.Type_Kind reflect.Kind_eqb orb]; rewrite HE; reflexivity.
Qed.

(** A value of a kind other than Ptr, Interface and Struct that exposes no
    text rendering goes straight to the kind switch. *)
Lemma convert_switch fuel t d fl :
  plain' (reflect.V t d fl) = true ->
  reflect.Type_Kind t <> reflect.Ptr ->
  reflect.Type_Kind t <> reflect.Interface ->
  reflect.Type_Kind t <> reflect.Struct ->
  convert (S fuel) (reflect.V t d fl)
  = (switched ← kindSwitch E (convert fuel) t (reflect.V t d fl);
     match switched with
     | Some r => mret r
     | None => mret (None, Some (errorsNew "Wat"))
     end).
Proof.
  intros Hpl Hp Hi Hs. rewrite convert_S, body_plain by done.
  rewrite descend_other by done. cbn. unfold dispatch.
  destruct (reflect.Type_Kind t); try reflexivity; congruence.
Qed.

(** ** The shape of every result *)

(** A result is a node and no error, or an error and no node; [P] holds of
    the error. *)
Definition shaped (P : error E -> Prop) (r : exec (result E)) : Prop :=
  match r with
  | Done (Some _, None) => True
  | Done (None, Some err) => P err
  | Done _ => False
  | _ => True
  end.

(** The errors the converter makes itself. *)
Definition ownError (P : error E -> Prop) : Prop :=
  (forall t, P (UnknownTypeError t)) /\ (forall e, P (marshalError e)).

(** Destruct the call a sequence of calls starts with. *)
Ltac first_call m k :=
  lazymatch m with
  | mbind _ ?m' => first_call m' k
  | _ => k m
  end.

Ltac case_call :=
  let go m :=
    (destruct m as [?|?|] eqn:?; cbn [mbind exec_bind mret exec_ret]) in
  lazymatch goal with
  | |- shaped _ ?r => first_call r go
  | |- match ?r with _ => _ end => first_call r go
  end.

Section Shapes.

Variable P : error E -> Prop.
Variable rec : Value -> exec (result E).
Hypothesis Hown : ownError P.
Hypothesis Hrec : forall x, shaped P (rec x).

Lemma structFields_shaped val finfos subvalues :
  shaped P (structFields E rec val finfos subvalues).
Proof.
  revert subvalues. induction finfos as [|finfo rest IH]; intros subvalues;
    cbn [structFields]; [exact I|].
  case_call; [|exact I|exact I].
  case_call; [|exact I|exact I].
  destruct a0; [apply IH|].
  specialize (Hrec a). destruct (rec a) as [[[v|] [err|]]| |]; cbn in *;
    try done; apply IH.
Qed.

Lemma arrayElems_shaped val idx remaining subvalues :
  shaped P (arrayElems E rec val idx remaining subvalues).
Proof.
  revert idx subvalues. induction remaining as [|remaining IH];
    intros idx subvalues; cbn [arrayElems]; [exact I|].
  case_call; [|exact I|exact I].
  specialize (Hrec a). destruct (rec a) as [[[v|] [err|]]| |]; cbn in *;
    try done; apply IH.
Qed.

Lemma mapEntries_shaped val keys subvalues :
  shaped P (mapEntries E rec val keys subvalues).
Proof.
  revert subvalues. induction keys as [|keyv rest IH]; intros subvalues;
    cbn [mapEntries]; [exact I|].
  case_call; [|exact I|exact I].
  specialize (Hrec a). destruct (rec a) as [[[v|] [err|]]| |]; cbn in *;
    try done; apply IH.
Qed.

(** The switch returns in every case: it never runs to its end. *)
Lemma kindSwitch_shaped typ val :
  match kindSwitch E rec typ val with
  | Done (Some r) => shaped P (Done r)
  | Done None => False
  | _ => True
  end.
Proof.
  destruct Hown as [Hunk _]. unfold kindSwitch.
  destruct (reflect.Type_Kind typ); cbn [mbind exec_bind mret exec_ret];
    try (exact (Hunk typ)); try exact I;
    try (case_call; exact I).
  - (* Array *)
    case_call; [|exact I|exact I].
    destruct (reflect.Kind_eqb _ _); [case_call; exact I|].
    case_call; [|exact I|exact I].
    pose proof (arrayElems_shaped val 0 a0 (replicate a0 None)) as Hs.
    destruct (arrayElems _ _ _ _ _ _); cbn; done.
  - (* Map *)
    case_call; [|exact I|exact I].
    destruct (negb _); [exact (Hunk typ)|].
    case_call; [|exact I|exact I].
    pose proof (mapEntries_shaped val a0 ∅) as Hs.
    destruct (mapEntries _ _ _ _ _); cbn; done.
  - (* Slice *)
    case_call; [|exact I|exact I].
    destruct (reflect.Kind_eqb _ _); [case_call; exact I|].
    case_call; [|exact I|exact I].
    pose proof (arrayElems_shaped val 0 a0 (replicate a0 None)) as Hs.
    destruct (arrayElems _ _ _ _ _ _); cbn; done.
Qed.

Lemma stringMarshalable_shaped m :
  shaped P (Done (stringMarshalableToPlistValue E MarshalText m)).
Proof.
  destruct Hown as [_ Hm]. unfold stringMarshalableToPlistValue.
  destruct (MarshalText m.1 m.2) as [s [e|]]; cbn; [apply Hm|exact I].
Qed.

Lemma dispatch_shaped typ val : shaped P (dispatch' rec typ val).
Proof.
  unfold dispatch. destruct (reflect.Kind_eqb _ _).
  - unfold structToPlistValue. destruct (getTypeInfo typ).1; [|exact I].
    apply structFields_shaped.
  - pose proof (kindSwitch_shaped typ val) as Hs.
    destruct (kindSwitch E rec typ val) as [[r|]| |]; cbn; done.
Qed.

Lemma body_shaped val : shaped P (body rec val).
Proof.
  unfold valueToPlistValue_body.
  destruct val as [|t d fl]; [exact I|].
  cbn [reflect.Value_Type reflect.Value_IsValid reflect.Value_CanInterface
       negb mbind exec_bind mret exec_ret].
  destruct (_ && _).
  - case_call; [|exact I|exact I]. case_call; [|exact I|exact I].
    apply stringMarshalable_shaped.
  - unfold addrProbe.
    destruct (reflect.Value_CanAddr _); cbn [mbind exec_bind mret exec_ret].
    + case_call; [|exact I|exact I]. case_call; [|exact I|exact I].
      case_call; [|exact I|exact I].
      destruct (_ && _); cbn [mbind exec_bind mret exec_ret].
      * case_call; [|exact I|exact I]. case_call; [|exact I|exact I].
        apply stringMarshalable_shaped.
      * case_call; [|exact I|exact I]. apply dispatch_shaped.
    + case_call; [|exact I|exact I]. apply dispatch_shaped.
Qed.

End Shapes.

Lemma convert_shaped (P : error E -> Prop) :
  ownError P -> forall fuel val, shaped P (convert fuel val).
Proof.
  intros Hown. induction fuel as [|fuel IH]; intros val; [exact I|].
  rewrite convert_S. by apply body_shaped.
Qed.

(** ** Absent values *)

(** C1 (the code departs from it). The zero [Value] makes line 86 panic
    before the validity guard of line 88 is reached; a nil pointer and a nil
    interface make line 106 panic, their [Elem] being the zero [Value]; and
    no call at all returns "absent", the pair of a nil node and a nil
    error. *)
Theorem absent_value_panics (fuel : nat) :
  convert (S fuel) reflect.Zero
  = Panic "reflect: call of reflect.Value.Type on zero Value"
  /\ (forall val,
        plain' val = true ->
        reflect.Value_Elem val = Done reflect.Zero ->
        convert (S fuel) val
        = Panic "reflect: call of reflect.Value.Type on zero Value")
  /\ (forall fuel' val, convert fuel' val <> Done (None, None)).
Proof.
  split; [reflexivity|split].
  - intros [|t d fl] Hpl HE; [discriminate|].
    rewrite convert_S, body_plain by done.
    rewrite (descend_Elem _ _ _ _ HE). reflexivity.
  - intros fuel' val Heq.
    pose proof (convert_shaped (fun _ => True)
                  (conj (fun _ => I) (fun _ => I)) fuel' val) as Hs.
    rewrite Heq in Hs. exact Hs.
Qed.

(** ** Indirection *)

(** C2 (as amended). A populated pointer or interface that exposes no text
    rendering is unwrapped once, in place: the conversion continues with
    record handling and the kind switch on what it holds, without probing
    that for text rendering and without unwrapping again. So a second level
    of indirection fails with [UnknownTypeError] naming the type reached,
    and one level over a value that is itself plain and no pointer or
    interface gives what converting that value gives. *)
Theorem descend_once (fuel : nat) (val : Value) t' d' fl' :
  plain' val = true ->
  reflect.Value_Elem val = Done (reflect.V t' d' fl') ->
  convert (S fuel) val = dispatch' (convert fuel) t' (reflect.V t' d' fl')
  /\ (reflect.Type_Kind t' = reflect.Ptr \/ reflect.Type_Kind t' = reflect.Interface ->
      convert (S fuel) val = Done (None, Some (UnknownTypeError t')))
  /\ (plain' (reflect.V t' d' fl') = true ->
      reflect.Type_Kind t' <> reflect.Ptr ->
      reflect.Type_Kind t' <> reflect.Interface ->
      convert (S fuel) val = convert (S fuel) (reflect.V t' d' fl')).
Proof.
  intros Hpl HE. destruct val as [|t d fl]; [discriminate|].
  assert (Hstep : convert (S fuel) (reflect.V t d fl)
                  = dispatch' (convert fuel) t' (reflect.V t' d' fl')).
  { rewrite convert_S, body_plain by done.
    rewrite (descend_Elem _ _ _ _ HE). reflexivity. }
  split; [exact Hstep|split].
  - intros Hk. rewrite Hstep. unfold dispatch, kindSwitch.
    destruct Hk as [-> | ->]; reflexivity.
  - intros Hpl' Hp Hi. rewrite Hstep.
    rewrite convert_S, body_plain by done.
    rewrite descend_other by done. reflexivity.
Qed.

(** ** Text rendering *)

(** C3. When a probe finds the text-rendering capability, at the value or,
    failing that, at the address of an addressable value, the conversion is
    the call of [MarshalText] on the receiver the probe selected: a String
    node holding its output, or its error and no node. Neither the fuel nor
    the provider of field descriptors has a part in the result, whatever
    the kind of the value, Struct included. *)
Theorem text_marshaler_precedence (fuel : nat) (val : Value) (m : rtype * data) :
  textReceiver Implements val = Some m ->
  Implements m.1 textMarshalerType = true ->
  convert (S fuel) val
  = Done (stringMarshalableToPlistValue E MarshalText m)
  /\ stringMarshalableToPlistValue E MarshalText m
     = match MarshalText m.1 m.2 with
       | (s, None) => (Some (mkPlistValue String (GoBytes s)), None)
       | (_, Some e) => (None, Some (marshalError e))
       end.
Proof.
  intros Hrecv Himpl. split.
  - destruct val as [|t d fl]; [discriminate|].
    unfold textReceiver in Hrecv. rewrite convert_S.
    unfold valueToPlistValue_body. cbn.
    destruct (exposesText Implements (reflect.V t d fl)) eqn:Hv.
    + cbn in Hv. rewrite Hv. apply andb_prop in Hv as [Hro _].
      apply negb_true_iff in Hro. cbn. rewrite Hro.
      assert (Hi : (match t, d with
                    | reflect.Tinterface _, reflect.DIface dyn => Done dyn
                    | reflect.Tinterface _, _ =>
                        Panic "reflect: corrupt interface value"
                    | _, _ => Done (Some (t, d))
                    end) = Done (Some m)).
      { destruct t; try (by inversion Hrecv); destruct d; by inversion Hrecv. }
      rewrite Hi. cbn. destruct m as [mt md]. cbn in Himpl. rewrite Himpl.
      reflexivity.
    + cbn in Hv. rewrite Hv. cbn.
      destruct (exposesTextByAddr Implements (reflect.V t d fl)) eqn:Ha;
        [|discriminate].
      cbn in Ha. apply andb_prop in Ha as [[Haddr Hro]%andb_prop Hpi].
      apply negb_true_iff in Hro.
      unfold addrProbe. cbn.
      repeat (first [rewrite Haddr | rewrite Hro | rewrite Hpi]; cbn).
      inversion Hrecv; subst m. reflexivity.
  - unfold stringMarshalableToPlistValue.
    destruct (MarshalText m.1 m.2) as [s [e|]]; reflexivity.
Qed.

(** ** Integers *)

Lemma convert_unsigned (fuel : nat) name w fl u :
  plain' (reflect.V (reflect.Tuint name w) (reflect.DUint u) fl) = true ->
  0 <= u < 2 ^ reflect.bits w ->
  convert (S fuel) (reflect.V (reflect.Tuint name w) (reflect.DUint u) fl)
  = Done (Some (mkPlistValue Integer (GoUint64 u)), None).
Proof.
  intros Hpl Hu.
  rewrite convert_switch by (done || by destruct w).
  assert (Hid := wrap_unsigned_id (reflect.bits w) u Hu).
  destruct w; cbn in *; rewrite Hid; reflexivity.
Qed.

Lemma convert_signed (fuel : nat) name w fl i :
  plain' (reflect.V (reflect.Tint name w) (reflect.DInt i) fl) = true ->
  - 2 ^ (reflect.bits w - 1) <= i < 2 ^ (reflect.bits w - 1) ->
  convert (S fuel) (reflect.V (reflect.Tint name w) (reflect.DInt i) fl)
  = Done (Some (mkPlistValue Integer (GoInt64 i)), None).
Proof.
  intros Hpl Hi.
  rewrite convert_switch by (done || by destruct w).
  assert (Hid := wrap_signed_id (reflect.bits w) i (bits_pos w) Hi).
  destruct w; cbn in *; rewrite Hid; reflexivity.
Qed.

(** The pointer-sized kind Uintptr is no case of the switch, though
    [isEmptyValue] counts it with the unsigned integers. *)
Lemma convert_uintptr (fuel : nat) name fl u :
  plain' (reflect.V (reflect.Tuintptr name) (reflect.DUint u) fl) = true ->
  convert (S fuel) (reflect.V (reflect.Tuintptr name) (reflect.DUint u) fl)
  = Done (None, Some (UnknownTypeError (reflect.Tuintptr name))).
Proof. intros Hpl. by rewrite convert_switch. Qed.

(** C7. An unsigned integer of width 8, 16, 32, 64 or of the platform word
    becomes an Integer node whose payload is a uint64 of the same
    magnitude, above 2^63 too; a signed integer becomes an Integer node
    whose payload is an int64 of the same value. The two payloads are of
    different Go types, so the signedness of the source can be read off
    the node. *)
Theorem integer_signedness (fuel : nat) (name : string) (w : reflect.width)
    (fl : reflect.flag) :
  (forall u,
     plain' (reflect.V (reflect.Tuint name w) (reflect.DUint u) fl) = true ->
     0 <= u < 2 ^ reflect.bits w ->
     convert (S fuel) (reflect.V (reflect.Tuint name w) (reflect.DUint u) fl)
     = Done (Some (mkPlistValue Integer (GoUint64 u)), None))
  /\ (forall i,
        plain' (reflect.V (reflect.Tint name w) (reflect.DInt i) fl) = true ->
        - 2 ^ (reflect.bits w - 1) <= i < 2 ^ (reflect.bits w - 1) ->
        convert (S fuel) (reflect.V (reflect.Tint name w) (reflect.DInt i) fl)
        = Done (Some (mkPlistValue Integer (GoInt64 i)), None))
  /\ (forall u i, GoUint64 u <> GoInt64 i).
Proof.
  split; [|split].
  - intros u. apply convert_unsigned.
  - intros i. apply convert_signed.
  - discriminate.
Qed.

(** ** Byte sequences *)

Lemma mapM_byte_of_data (bs : list byte) :
  Forall (fun b => 0 <= b < 256) bs ->
  mapM reflect.byte_of_data (map reflect.DUint bs) = Done bs.
Proof.
  induction 1 as [|b bs Hb _ IH]; [reflexivity|].
  cbn. rewrite wrap_unsigned_id by (change (2 ^ 8) with 256; lia).
  cbn. cbn in IH. rewrite IH. reflexivity.
Qed.

(** X5. Where the Data branch does yield the bytes of the source: when the
    sequence is addressable, or when its element type is [uint8] itself and
    the value does not come from an unexported field. *)
Lemma byte_sequence_data (fuel : nat) t e (bs : list byte) fl :
  let val := reflect.V t (reflect.DList (map reflect.DUint bs)) fl in
  plain' val = true ->
  wellFormed val = true ->
  reflect.Type_Kind t = reflect.Slice \/ reflect.Type_Kind t = reflect.Array ->
  reflect.Type_Elem t = Done e ->
  reflect.Type_Kind e = reflect.Uint8 ->
  Forall (fun b => 0 <= b < 256) bs ->
  reflect.flagAddr fl = true \/ (e = reflect.uint8Type /\ reflect.flagRO fl = false) ->
  convert (S fuel) val = Done (Some (mkPlistValue Data (GoBytes bs)), None).
Proof.
  intros val Hpl Hwf Hk He Hke Hbs Hcase. subst val.
  rewrite convert_switch by (done || destruct Hk as [Hk|Hk]; rewrite Hk; done).
  unfold kindSwitch.
  assert (Hbytes : dataBytes (reflect.V t (reflect.DList (map reflect.DUint bs)) fl)
                   = Done bs).
  { unfold dataBytes. cbn [reflect.Value_CanAddr].
    destruct (reflect.flagAddr fl) eqn:Haddr.
    - destruct t; try discriminate He; try (by destruct Hk);
        injection He as ->; cbn; rewrite Hke; cbn; try rewrite Haddr;
        apply mapM_byte_of_data, Hbs.
    - destruct Hcase as [?|[-> Hro]]; [done|].
      destruct t; try discriminate He; try (by destruct Hk);
        injection He as ->; cbn in Hwf |- *; rewrite Hro; cbn.
      + apply Nat.eqb_eq in Hwf. subst len.
        rewrite !length_map, length_replicate, Nat.min_id.
        cbn. rewrite take_ge, drop_ge by (rewrite ?length_map, ?length_replicate; lia).
        rewrite app_nil_r. apply mapM_byte_of_data, Hbs.
      + rewrite !length_map, length_replicate, Nat.min_id.
        cbn. rewrite take_ge, drop_ge by (rewrite ?length_map, ?length_replicate; lia).
        rewrite app_nil_r. apply mapM_byte_of_data, Hbs. }
  destruct Hk as [Hk|Hk]; rewrite Hk; cbn; rewrite He; cbn; rewrite Hke; cbn;
    rewrite Hbytes; reflexivity.
Qed.

(** C8 (the code departs from it). A byte slice that is not addressable and
    whose element type is a named type of kind Uint8, not [uint8] itself,
    makes [reflect.Copy] panic, since its two arguments must have the same
    element type: no Data node is produced. *)
Theorem unaddressable_named_bytes_panic (fuel : nat) (name : string) e
    (l : list data) (fl : reflect.flag) :
  plain' (reflect.V (reflect.Tslice name e) (reflect.DList l) fl) = true ->
  reflect.Type_Kind e = reflect.Uint8 ->
  reflect.flagAddr fl = false ->
  reflect.flagRO fl = false ->
  reflect.rtype_eqb reflect.uint8Type e = false ->
  convert (S fuel) (reflect.V (reflect.Tslice name e) (reflect.DList l) fl)
  = Panic ("reflect.Copy: uint8 != " +:+ reflect.Type_String e).
Proof.
  intros Hpl Hke Haddr Hro Hne.
  rewrite convert_switch by done.
  unfold kindSwitch, dataBytes. cbn -[reflect.Copy]. rewrite Hke.
  cbn -[reflect.Copy]. rewrite Haddr. cbn -[reflect.rtype_eqb].
  rewrite Hro. cbn -[reflect.rtype_eqb]. rewrite Hne. reflexivity.
Qed.

(** ** Sequences *)

Lemma Index_elements val i x :
  wellFormed val = true ->
  elements val !! i = Some x ->
  reflect.Value_Index val i = Done x.
Proof.
  destruct val as [|t d fl]; [done|].
  destruct t; try done; destruct d; try done; cbn -[Nat.ltb]; intros Hwf Hx.
  - apply Nat.eqb_eq in Hwf. subst len.
    rewrite list_lookup_fmap in Hx.
    destruct (elems !! i) as [d|] eqn:Hd; [|done].
    apply lookup_lt_Some in Hd as Hlt. apply Nat.ltb_lt in Hlt.
    rewrite Hlt. by injection Hx as <-.
  - rewrite list_lookup_fmap in Hx.
    destruct (elems !! i) as [d|]; [|done]. by injection Hx as <-.
Qed.

Section ArrayLoop.

Variable rec : Value -> exec (result E).
Variable val : Value.
Hypothesis Hwf : wellFormed val = true.

(** The loop, started at index [length done] with the converted elements
    of [done] in place, converts the rest in order. *)
Lemma arrayElems_all xs vs :
  Forall2 (fun x v => rec x = Done (v, None)) xs vs ->
  forall done pre,
    elements val = done ++ xs ->
    length pre = length done ->
    arrayElems E rec val (length done) (length xs)
      (pre ++ replicate (length xs) None)
    = Done (Some (mkPlistValue Array (GoSlice (pre ++ vs))), None).
Proof.
  induction 1 as [|x v xs vs Hx _ IH]; intros done pre Hel Hlen.
  { cbn. by rewrite !app_nil_r. }
  cbn [length arrayElems replicate].
  rewrite (Index_elements val (length done) x Hwf)
    by (rewrite Hel; apply list_lookup_middle; done).
  cbn. rewrite Hx. cbn.
  rewrite <- Hlen, insert_app_r_alt, Nat.sub_diag by lia. cbn.
  specialize (IH (done ++ [x]) (pre ++ [v])).
  rewrite !length_app, <- !app_assoc in IH. cbn in IH.
  rewrite !Nat.add_1_r in IH. rewrite Hlen. apply IH; [done|by rewrite Hlen].
Qed.

(** It stops at the first element whose conversion returns an error. *)
Lemma arrayElems_first_error xs1 x xs2 v err :
  Forall (fun x' => exists v', rec x' = Done (v', None)) xs1 ->
  rec x = Done (v, Some err) ->
  forall done subvalues,
    elements val = done ++ xs1 ++ x :: xs2 ->
    arrayElems E rec val (length done) (length (xs1 ++ x :: xs2)) subvalues
    = Done (None, Some err).
Proof.
  intros Hok Hx. induction Hok as [|x' xs1 [v' Hx'] _ IH];
    intros done subvalues Hel; cbn [app length arrayElems].
  - rewrite (Index_elements val (length done) x Hwf)
      by (rewrite Hel; apply list_lookup_middle; done).
    cbn. rewrite Hx. reflexivity.
  - rewrite (Index_elements val (length done) x' Hwf)
      by (rewrite Hel; apply list_lookup_middle; done).
    cbn. rewrite Hx'. cbn.
    specialize (IH (done ++ [x']) (<[length done:=v']> subvalues)).
    rewrite length_app, Nat.add_1_r in IH. apply IH.
    rewrite Hel, <- app_assoc. reflexivity.
Qed.

End ArrayLoop.

(** C4. A slice or an array whose elements are not of kind Uint8 becomes an
    Array node holding, in the order of the source, the nodes its elements
    convert to; and when the conversion of an element returns an error, all
    elements before it having converted, the conversion returns that error
    and no node. *)
Theorem sequence_to_array (fuel : nat) t d fl e :
  let val := reflect.V t d fl in
  plain' val = true ->
  wellFormed val = true ->
  reflect.Type_Kind t = reflect.Slice \/ reflect.Type_Kind t = reflect.Array ->
  reflect.Type_Elem t = Done e ->
  reflect.Type_Kind e <> reflect.Uint8 ->
  (forall vs,
     Forall2 (fun x v => convert fuel x = Done (v, None)) (elements val) vs ->
     convert (S fuel) val = Done (Some (mkPlistValue Array (GoSlice vs)), None))
  /\ (forall xs1 x xs2 v err,
        elements val = xs1 ++ x :: xs2 ->
        Forall (fun x' => exists v', convert fuel x' = Done (v', None)) xs1 ->
        convert fuel x = Done (v, Some err) ->
        convert (S fuel) val = Done (None, Some err)).
Proof.
  intros val Hpl Hwf Hk He Hke.
  assert (Hlen : reflect.Value_Len val = Done (length (elements val))).
  { subst val. destruct t; try discriminate He; try (by destruct Hk);
      destruct d; try discriminate Hwf; cbn in *; rewrite length_map; [|done].
    apply Nat.eqb_eq in Hwf. by subst len. }
  assert (Hsw : convert (S fuel) val
                = arrayElems E (convert fuel) val 0 (length (elements val))
                    (replicate (length (elements val)) None)).
  { subst val. rewrite convert_switch
      by (done || destruct Hk as [Hk|Hk]; rewrite Hk; done).
    unfold kindSwitch.
    assert (Hne : reflect.Kind_eqb (reflect.Type_Kind e) reflect.Uint8 = false)
      by (destruct (reflect.Type_Kind e); done).
    destruct Hk as [Hk|Hk]; rewrite Hk; cbn [mbind exec_bind]; rewrite He;
      cbn [mbind exec_bind]; rewrite Hne, Hlen;
      cbn [mbind exec_bind mret exec_ret];
      by destruct (arrayElems _ _ _ _ _ _). }
  split.
  - intros vs Hall. rewrite Hsw.
    apply (arrayElems_all _ val Hwf _ _ Hall [] []); done.
  - intros xs1 x xs2 v err Hel Hok Hx. rewrite Hsw, Hel.
    apply (arrayElems_first_error _ val Hwf xs1 x xs2 v err Hok Hx []); done.
Qed.

(** ** Mappings *)

(** Assignments to distinct keys of a Go map, in any order, build the map
    of the pairs. *)
Lemma foldl_insert_NoDup {A : Type} (l : list (string * A)) (sub : gmap string A) :
  NoDup l.*1 ->
  foldl (fun m kv => <[kv.1 := kv.2]> m) sub l = list_to_map l ∪ sub.
Proof.
  revert sub. induction l as [|[k v] l IH]; intros sub Hnd.
  { cbn. by rewrite (left_id_L ∅ (∪)). }
  rewrite fmap_cons in Hnd. apply NoDup_cons in Hnd as [Hk Hnd].
  cbn [foldl]. rewrite IH, list_to_map_cons by done.
  rewrite <- insert_union_l. symmetry.
  apply insert_union_r. by apply not_elem_of_list_to_map_1.
Qed.

Lemma Value_String_text k s fl :
  reflect.Type_Kind k = reflect.String ->
  reflect.Value_String (reflect.V k (reflect.DString s) fl) = s.
Proof.
  intros Hk. destruct k; try discriminate Hk; try reflexivity;
    destruct w; discriminate Hk.
Qed.

Section MapLoop.

Variable rec : Value -> exec (result E).
Variables (name : string) (k e : rtype) (kvs : list (string * data)).
Variable fl : reflect.flag.
Hypothesis Hnd : NoDup kvs.*1.
Hypothesis Hk : reflect.Type_Kind k = reflect.String.

#[local] Abbreviation mapval := (reflect.V (reflect.Tmap name k e) (textKeyed kvs) fl).
#[local] Abbreviation keyOf := (fun kv : string * data =>
  reflect.V k (reflect.DString kv.1) (reflect.mkflag false (reflect.flagRO fl))).
#[local] Abbreviation elemOf := (fun kv : string * data =>
  reflect.V e kv.2 (reflect.mkflag false (reflect.flagRO fl))).

Lemma MapIndex_entry done kv rest :
  kvs = done ++ kv :: rest ->
  reflect.Value_MapIndex mapval (keyOf kv) = Done (elemOf kv).
Proof.
  intros Hkvs. cbn. rewrite orb_diag.
  assert (Hfind : find (fun p : data * data => reflect.key_eqb p.1 (reflect.DString kv.1))
                    (map (fun kv => (reflect.DString kv.1, kv.2)) kvs)
                  = Some (reflect.DString kv.1, kv.2)).
  { rewrite Hkvs in Hnd |- *. rewrite fmap_app in Hnd.
    apply NoDup_app in Hnd as (_ & Hdis & _).
    clear Hkvs. induction done as [|kv' done IH]; cbn.
    - by rewrite String.eqb_refl.
    - destruct (String.eqb kv'.1 kv.1) eqn:Heq.
      + apply String.eqb_eq in Heq. exfalso.
        apply (Hdis kv'.1); [by left|]. rewrite Heq. by left.
      + apply IH. intros x Hx. apply Hdis. by right. }
  cbn in Hfind. by rewrite Hfind.
Qed.

Lemma mapEntries_all rest vs :
  Forall2 (fun kv v => rec (elemOf kv) = Done (v, None)) rest vs ->
  forall done subvalues,
    kvs = done ++ rest ->
    mapEntries E rec mapval (map keyOf rest) subvalues
    = Done (Some (mkPlistValue Dictionary
                    (GoMap (foldl (fun m kv => <[kv.1 := kv.2]> m) subvalues
                              (zip rest.*1 vs)))), None).
Proof.
  induction 1 as [|kv v rest vs Hkv _ IH]; intros done subvalues Hkvs;
    [reflexivity|].
  cbn [map mapEntries]. rewrite (MapIndex_entry done kv rest Hkvs).
  cbn [mbind exec_bind]. rewrite Hkv. cbn [mbind exec_bind].
  rewrite (IH (done ++ [kv])) by (by rewrite <- app_assoc).
  by rewrite Value_String_text.
Qed.

Lemma mapEntries_first_error rest1 kv rest2 v err :
  Forall (fun kv' => exists v', rec (elemOf kv') = Done (v', None)) rest1 ->
  rec (elemOf kv) = Done (v, Some err) ->
  forall done subvalues,
    kvs = done ++ rest1 ++ kv :: rest2 ->
    mapEntries E rec mapval (map keyOf (rest1 ++ kv :: rest2)) subvalues
    = Done (None, Some err).
Proof.
  intros Hok Hkv. induction Hok as [|kv' rest1 [v' Hkv'] _ IH];
    intros done subvalues Hkvs; cbn [app map mapEntries].
  - rewrite (MapIndex_entry done kv rest2 Hkvs).
    cbn [mbind exec_bind]. by rewrite Hkv.
  - rewrite (MapIndex_entry done kv' _ Hkvs).
    cbn [mbind exec_bind]. rewrite Hkv'. cbn [mbind exec_bind].
    apply (IH (done ++ [kv'])). by rewrite <- app_assoc.
Qed.

End MapLoop.

(** C5. A map whose key type is of kind String becomes a Dictionary node
    with one entry for each entry of the map, under the same key, holding
    the node the element converts to; when the conversion of an element
    returns an error, those visited before it having converted, the
    conversion returns that error and no node. A map whose key type is of
    another kind gives [UnknownTypeError] with the type of the map. *)
Theorem map_to_dictionary (fuel : nat) (name : string) (k e : rtype)
    (fl : reflect.flag) :
  let elemOf := fun kv : string * data =>
    reflect.V e kv.2 (reflect.mkflag false (reflect.flagRO fl)) in
  (forall kvs,
     let val := reflect.V (reflect.Tmap name k e) (textKeyed kvs) fl in
     plain' val = true ->
     reflect.Type_Kind k = reflect.String ->
     NoDup kvs.*1 ->
     (forall vs,
        Forall2 (fun kv v => convert fuel (elemOf kv) = Done (v, None)) kvs vs ->
        convert (S fuel) val
        = Done (Some (mkPlistValue Dictionary
                        (GoMap (list_to_map (zip kvs.*1 vs)))), None)
        /\ size (list_to_map (zip kvs.*1 vs) : gmap string (option plistValue))
           = length kvs)
     /\ (forall rest1 kv rest2 v err,
           kvs = rest1 ++ kv :: rest2 ->
           Forall (fun kv' => exists v', convert fuel (elemOf kv') = Done (v', None))
             rest1 ->
           convert fuel (elemOf kv) = Done (v, Some err) ->
           convert (S fuel) val = Done (None, Some err)))
  /\ (forall entries,
        let val := reflect.V (reflect.Tmap name k e) (reflect.DMap entries) fl in
        plain' val = true ->
        reflect.Type_Kind k <> reflect.String ->
        convert (S fuel) val
        = Done (None, Some (UnknownTypeError (reflect.Tmap name k e)))).
Proof.
  intros elemOf. split.
  - intros kvs val Hpl Hk Hnd.
    assert (Hsw : convert (S fuel) val
                  = mapEntries E (convert fuel) val
                      (map (fun kv : string * data =>
                              reflect.V k (reflect.DString kv.1)
                                (reflect.mkflag false (reflect.flagRO fl))) kvs) ∅).
    { subst val. rewrite convert_switch by done.
      unfold kindSwitch. cbn [reflect.Type_Kind reflect.Type_Key mbind exec_bind].
      rewrite Hk. cbn. rewrite map_map. cbn.
      by destruct (mapEntries _ _ _ _ _). }
    split.
    + intros vs Hall. rewrite Hsw.
      assert (Hlen : length kvs.*1 = length vs).
      { rewrite length_fmap. by eapply Forall2_length. }
      assert (Hnd' : NoDup (zip kvs.*1 vs).*1) by (by rewrite fst_zip by lia).
      split.
      * subst val. rewrite (mapEntries_all _ name k e kvs fl Hnd Hk kvs vs Hall []) by done.
        rewrite foldl_insert_NoDup by done. by rewrite (right_id_L ∅ (∪)).
      * rewrite <- length_map_to_list, map_to_list_to_map by done.
        rewrite length_zip_with, <- Hlen, length_fmap. lia.
    + intros rest1 kv rest2 v err Hkvs Hok Hkv. rewrite Hsw. subst val.
      rewrite Hkvs at 2.
      apply (mapEntries_first_error _ name k e kvs fl Hnd rest1 kv rest2 v err Hok Hkv []).
      done.
  - intros entries val Hpl Hk. subst val. rewrite convert_switch by done.
    unfold kindSwitch. cbn [reflect.Type_Kind reflect.Type_Key mbind exec_bind].
    destruct (reflect.Type_Kind k); done.
Qed.

(** ** Records *)

Lemma emitted_names finfos outs name :
  name ∈ (emitted finfos outs).*1 -> name ∈ fieldInfo_name <$> finfos.
Proof.
  revert outs. induction finfos as [|finfo finfos IH]; intros [|[|v] outs];
    cbn; try (by intros ?%elem_of_nil).
  - intros Hin. right. by eapply IH.
  - intros [->|Hin]%elem_of_cons; [by left|]. right. by eapply IH.
Qed.

Lemma emitted_NoDup finfos outs :
  NoDup (fieldInfo_name <$> finfos) -> NoDup (emitted finfos outs).*1.
Proof.
  revert outs. induction finfos as [|finfo finfos IH]; intros [|[|v] outs] Hnd;
    cbn; try apply NoDup_nil_2; rewrite fmap_cons in Hnd;
    apply NoDup_cons in Hnd as [Hnotin Hnd]; [by apply IH|].
  apply NoDup_cons. split; [|by apply IH].
  intros Hin. by apply Hnotin, (emitted_names _ outs).
Qed.

(** The key of a field is in the map of the stored fields exactly when the
    field was stored. *)
Lemma emitted_lookup finfos outs i finfo o :
  NoDup (fieldInfo_name <$> finfos) ->
  length finfos = length outs ->
  finfos !! i = Some finfo ->
  outs !! i = Some o ->
  (list_to_map (emitted finfos outs) : gmap string (option plistValue))
    !! fieldInfo_name finfo
  = match o with Skipped => None | Emitted v => Some v end.
Proof.
  revert outs i. induction finfos as [|f finfos IH]; intros [|o' outs] i Hnd Hlen Hf Ho;
    try done.
  rewrite fmap_cons in Hnd. apply NoDup_cons in Hnd as [Hnotin Hnd].
  destruct i as [|i]; cbn in Hf, Ho.
  - injection Hf as ->. injection Ho as ->. destruct o as [|v]; cbn.
    + apply not_elem_of_list_to_map_1. intros Hin.
      by apply Hnotin, (emitted_names _ outs).
    + by rewrite lookup_insert_eq.
  - assert (Hne : fieldInfo_name f <> fieldInfo_name finfo).
    { intros Heq. apply Hnotin. rewrite Heq.
      apply list_elem_of_fmap. exists finfo. split; [done|].
      by eapply list_elem_of_lookup_2. }
    injection Hlen as Hlen.
    destruct o' as [|v']; cbn; [|rewrite lookup_insert_ne by done];
      by apply (IH outs i).
Qed.

Section FieldLoop.

Variable rec : Value -> exec (result E).
Variable val : Value.

(** One passage through the loop, for a field that does not fail. *)
Lemma structFields_step finfo o rest subvalues :
  fieldStep E rec val finfo o ->
  structFields E rec val (finfo :: rest) subvalues
  = structFields E rec val rest
      match o with
      | Skipped => subvalues
      | Emitted v => <[fieldInfo_name finfo := v]> subvalues
      end.
Proof.
  intros (x & Hx & Ho).
  cbn [structFields]. rewrite Hx. cbn [mbind exec_bind].
  destruct o as [|v].
  - destruct Ho as [Hinv|[Homit Hempty]].
    + by rewrite Hinv.
    + destruct (reflect.Value_IsValid x); cbn; [|done].
      by rewrite Homit, Hempty.
  - destruct Ho as (Hvalid & Hkeep & Hrec). rewrite Hvalid.
    cbn [negb mbind exec_bind mret exec_ret].
    destruct Hkeep as [Homit|Hempty].
    + rewrite Homit. cbn. by rewrite Hrec.
    + destruct (fieldInfo_omitEmpty finfo); cbn; [rewrite Hempty; cbn|];
        by rewrite Hrec.
Qed.

Lemma structFields_all finfos outs :
  Forall2 (fieldStep E rec val) finfos outs ->
  forall subvalues,
    structFields E rec val finfos subvalues
    = Done (Some (mkPlistValue Dictionary
                    (GoMap (foldl (fun m kv => <[kv.1 := kv.2]> m) subvalues
                              (emitted finfos outs)))), None).
Proof.
  induction 1 as [|finfo o finfos outs Hstep _ IH]; intros subvalues;
    [reflexivity|].
  rewrite (structFields_step finfo o) by done. rewrite IH.
  by destruct o.
Qed.

Lemma structFields_first_error finfos1 finfo finfos2 outs1 err :
  Forall2 (fieldStep E rec val) finfos1 outs1 ->
  fieldFails E rec val finfo err ->
  forall subvalues,
    structFields E rec val (finfos1 ++ finfo :: finfos2) subvalues
    = Done (None, Some err).
Proof.
  intros Hok (x & v & Hx & Hvalid & Hkeep & Hrec).
  induction Hok as [|f o finfos1 outs1 Hstep _ IH]; intros subvalues.
  - cbn [app structFields]. rewrite Hx. cbn [mbind exec_bind].
    rewrite Hvalid. cbn [negb mbind exec_bind mret exec_ret].
    destruct Hkeep as [Homit|Hempty].
    + rewrite Homit. cbn. by rewrite Hrec.
    + destruct (fieldInfo_omitEmpty finfo); cbn; [rewrite Hempty; cbn|];
        by rewrite Hrec.
  - cbn [app]. rewrite (structFields_step f o) by done. apply IH.
Qed.

End FieldLoop.

(** C6. A record is converted field by field, in the order of the
    descriptors of its type: a field is left out when its value is invalid
    or when its descriptor says "omit if empty" and [isEmptyValue] holds of
    the value, and is otherwise stored under the name of its descriptor as
    the node its value converts to. The result is the Dictionary of the
    stored fields, so the key of a field is absent exactly when the field
    was left out; when a field fails, those before it not failing, the
    conversion returns its error and no node. In particular the record
    [{Name: "" (omit if empty), Count: 0}] gives the Dictionary with the
    one entry "Count", an Integer 0. *)
Theorem record_to_dictionary (fuel : nat) t d fl tinfo :
  let val := reflect.V t d fl in
  plain' val = true ->
  reflect.Type_Kind t = reflect.Struct ->
  (getTypeInfo t).1 = Some tinfo ->
  NoDup (fieldInfo_name <$> fields tinfo) ->
  (forall outs,
     Forall2 (fieldStep E (convert fuel) val) (fields tinfo) outs ->
     let m : gmap string (option plistValue) :=
       list_to_map (emitted (fields tinfo) outs) in
     convert (S fuel) val = Done (Some (mkPlistValue Dictionary (GoMap m)), None)
     /\ forall i finfo o,
          fields tinfo !! i = Some finfo ->
          outs !! i = Some o ->
          m !! fieldInfo_name finfo
          = match o with Skipped => None | Emitted v => Some v end)
  /\ (forall finfos1 finfo finfos2 outs1 err,
        fields tinfo = finfos1 ++ finfo :: finfos2 ->
        Forall2 (fieldStep E (convert fuel) val) finfos1 outs1 ->
        fieldFails E (convert fuel) val finfo err ->
        convert (S fuel) val = Done (None, Some err))
  /\ ((getTypeInfo exampleRecordType).1 = Some exampleRecordInfo ->
      plain' exampleRecord = true ->
      plain' (reflect.ValueOf (reflect.Tint "int" reflect.W0) (reflect.DInt 0)) = true ->
      convert (S (S fuel)) exampleRecord
      = Done (Some (mkPlistValue Dictionary
                      (GoMap {[ "Count" := Some (mkPlistValue Integer (GoInt64 0)) ]})),
              None)).
Proof.
  intros val Hpl Hk Hti Hnd.
  assert (Hsw : convert (S fuel) val
                = structFields E (convert fuel) val (fields tinfo) ∅).
  { subst val. rewrite convert_S, body_plain by done.
    rewrite descend_other by (rewrite Hk; done).
    cbn. unfold dispatch, structToPlistValue. by rewrite Hk, Hti. }
  split; [|split].
  - intros outs Hall m. split.
    + rewrite Hsw, (structFields_all _ _ _ _ Hall).
      rewrite foldl_insert_NoDup by (by apply emitted_NoDup).
      by rewrite (right_id_L ∅ (∪)).
    + intros i finfo o Hf Ho. apply (emitted_lookup _ _ i); try done.
      by eapply Forall2_length.
  - intros finfos1 finfo finfos2 outs1 err Hfs Hok Hfail.
    rewrite Hsw, Hfs. by eapply structFields_first_error.
  - intros Hti' Hplr Hpli. unfold exampleRecord, reflect.ValueOf in *.
    rewrite convert_S, body_plain by done.
    rewrite descend_other by done.
    cbn -[valueToPlistValue]. unfold dispatch, structToPlistValue.
    cbn [reflect.Type_Kind reflect.Kind_eqb].
    rewrite Hti'. cbn -[valueToPlistValue].
    rewrite convert_signed by (done || (cbn; lia)).
    cbn. by rewrite insert_empty.
Qed.

(** ** The statement after the switch *)

Ltac case_call_ne :=
  lazymatch goal with
  | |- mbind ?k ?m <> _ =>
      first_call m ltac:(fun m' =>
        destruct m' as [?|?|] eqn:?; cbn [mbind exec_bind mret exec_ret])
  end.

(** C10. The [switch] of [valueToPlistValue] returns in each of its cases,
    the default case too, whatever the recursive calls do: it never runs to
    its end, so the [return nil, errors.New("Wat")] that follows it is never
    executed, and no call returns that error. *)
Theorem final_return_unreachable :
  (forall rec typ val, kindSwitch E rec typ val <> Done None)
  /\ (forall fuel val v, convert fuel val <> Done (v, Some (errorsNew "Wat"))).
Proof.
  split.
  - intros rec typ val. unfold kindSwitch.
    destruct (reflect.Type_Kind typ); cbn [mbind exec_bind mret exec_ret];
      try discriminate;
      repeat first
        [ discriminate
        | match goal with |- (if ?b then _ else _) <> _ => destruct b end
        | case_call_ne ].
  - intros fuel val v Heq.
    assert (Hown : ownError (fun err => err <> errorsNew "Wat")).
    { split; intros; discriminate. }
    pose proof (convert_shaped _ Hown fuel val) as Hs.
    rewrite Heq in Hs. destruct v; [exact Hs|by apply Hs].
Qed.

(** ** Fuel *)

(** [b] is [a], unless [a] ran out of fuel. *)
Definition refines {A : Type} (a b : exec A) : Prop := a = OutOfFuel \/ b = a.

Lemma refines_refl {A : Type} (a : exec A) : refines a a.
Proof. by right. Qed.

Lemma refines_bind {A B : Type} (a b : exec A) (f g : A -> exec B) :
  refines a b -> (forall x, refines (f x) (g x)) ->
  refines (a ≫= f) (b ≫= g).
Proof.
  intros [->| ->] Hfg; [by left|].
  destruct a as [x| |]; cbn; [apply Hfg|by right|by left].
Qed.

Lemma refines_result (a b : exec (result E)) r :
  refines a b -> a = r -> r <> OutOfFuel -> b = r.
Proof. intros [->| ->] <- Hr; done. Qed.

Section MoreFuel.

Variables rec rec' : Value -> exec (result E).
Hypothesis Hrec : forall x, refines (rec x) (rec' x).

Lemma structFields_refines val finfos subvalues :
  refines (structFields E rec val finfos subvalues)
          (structFields E rec' val finfos subvalues).
Proof.
  revert subvalues. induction finfos as [|finfo rest IH]; intros subvalues;
    cbn [structFields]; [apply refines_refl|].
  apply refines_bind; [apply refines_refl|intros x].
  apply refines_bind; [apply refines_refl|intros [|]]; [apply IH|].
  apply refines_bind; [apply Hrec|intros [v [err|]]];
    [apply refines_refl|apply IH].
Qed.

Lemma arrayElems_refines val idx remaining subvalues :
  refines (arrayElems E rec val idx remaining subvalues)
          (arrayElems E rec' val idx remaining subvalues).
Proof.
  revert idx subvalues. induction remaining as [|remaining IH];
    intros idx subvalues; cbn [arrayElems]; [apply refines_refl|].
  apply refines_bind; [apply refines_refl|intros x].
  apply refines_bind; [apply Hrec|intros [v [err|]]];
    [apply refines_refl|apply IH].
Qed.

Lemma mapEntries_refines val keys subvalues :
  refines (mapEntries E rec val keys subvalues)
          (mapEntries E rec' val keys subvalues).
Proof.
  revert subvalues. induction keys as [|keyv rest IH]; intros subvalues;
    cbn [mapEntries]; [apply refines_refl|].
  apply refines_bind; [apply refines_refl|intros x].
  apply refines_bind; [apply Hrec|intros [v [err|]]];
    [apply refines_refl|apply IH].
Qed.

Lemma kindSwitch_refines typ val :
  refines (kindSwitch E rec typ val) (kindSwitch E rec' typ val).
Proof.
  unfold kindSwitch.
  destruct (reflect.Type_Kind typ); try apply refines_refl.
  - apply refines_bind; [apply refines_refl|intros elemType].
    destruct (reflect.Kind_eqb _ _); [apply refines_refl|].
    apply refines_bind; [apply refines_refl|intros length].
    apply refines_bind; [apply arrayElems_refines|intros r; apply refines_refl].
  - apply refines_bind; [apply refines_refl|intros keyType].
    destruct (negb _); [apply refines_refl|].
    apply refines_bind; [apply refines_refl|intros keys].
    apply refines_bind; [apply mapEntries_refines|intros r; apply refines_refl].
  - apply refines_bind; [apply refines_refl|intros elemType].
    destruct (reflect.Kind_eqb _ _); [apply refines_refl|].
    apply refines_bind; [apply refines_refl|intros length].
    apply refines_bind; [apply arrayElems_refines|intros r; apply refines_refl].
Qed.

Lemma dispatch_refines typ val :
  refines (dispatch' rec typ val) (dispatch' rec' typ val).
Proof.
  unfold dispatch. destruct (reflect.Kind_eqb _ _).
  - unfold structToPlistValue. destruct (getTypeInfo typ).1;
      [apply structFields_refines|apply refines_refl].
  - apply refines_bind; [apply kindSwitch_refines|intros r; apply refines_refl].
Qed.

Lemma body_refines val : refines (body rec val) (body rec' val).
Proof.
  unfold valueToPlistValue_body.
  apply refines_bind; [apply refines_refl|intros typ].
  destruct (negb _); [apply refines_refl|].
  apply refines_bind; [apply refines_refl|intros ci].
  destruct (_ && _); [apply refines_refl|].
  apply refines_bind; [apply refines_refl|intros [r|]]; [apply refines_refl|].
  apply refines_bind; [apply refines_refl|intros vt].
  apply dispatch_refines.
Qed.

End MoreFuel.

(** A result reached with some fuel is the result with any more fuel. *)
Lemma convert_more_fuel (fuel fuel' : nat) (val : Value) r :
  (fuel <= fuel')%nat ->
  convert fuel val = r -> r <> OutOfFuel -> convert fuel' val = r.
Proof.
  intros Hle. apply refines_result. revert fuel' Hle val.
  induction fuel as [|fuel IH]; intros fuel' Hle val; [by left|].
  destruct fuel' as [|fuel']; [lia|].
  rewrite !convert_S. apply body_refines. intros x. apply IH. lia.
Qed.

(** A call that does not run out of fuel. *)
Definition finishes {A : Type} (a : exec A) : Prop := a <> OutOfFuel.

Lemma finishes_bind {A B : Type} (a : exec A) (f : A -> exec B) :
  finishes a -> (forall x, a = Done x -> finishes (f x)) -> finishes (a ≫= f).
Proof. destruct a as [x| |]; cbn; intros Ha Hf; [by apply Hf|done|done]. Qed.

(** The functions of [reflect] use no fuel. *)
Ltac reflect_finishes :=
  intros; unfold finishes; repeat (cbn; case_match); cbn; discriminate.

Lemma Value_Type_finishes v : finishes (reflect.Value_Type v).
Proof. unfold reflect.Value_Type. reflect_finishes. Qed.
Lemma Value_CanInterface_finishes v : finishes (reflect.Value_CanInterface v).
Proof. unfold reflect.Value_CanInterface. reflect_finishes. Qed.
Lemma Value_Interface_finishes v : finishes (reflect.Value_Interface v).
Proof. unfold reflect.Value_Interface. reflect_finishes. Qed.
Lemma Value_Addr_finishes v : finishes (reflect.Value_Addr v).
Proof. unfold reflect.Value_Addr. reflect_finishes. Qed.
Lemma Value_Elem_finishes v : finishes (reflect.Value_Elem v).
Proof. unfold reflect.Value_Elem. reflect_finishes. Qed.
Lemma Value_IsNil_finishes v : finishes (reflect.Value_IsNil v).
Proof. unfold reflect.Value_IsNil. reflect_finishes. Qed.
Lemma Value_Len_finishes v : finishes (reflect.Value_Len v).
Proof. unfold reflect.Value_Len. reflect_finishes. Qed.
Lemma Value_Bool_finishes v : finishes (reflect.Value_Bool v).
Proof. unfold reflect.Value_Bool. reflect_finishes. Qed.
Lemma Value_Int_finishes v : finishes (reflect.Value_Int v).
Proof. unfold reflect.Value_Int. reflect_finishes. Qed.
Lemma Value_Uint_finishes v : finishes (reflect.Value_Uint v).
Proof. unfold reflect.Value_Uint. reflect_finishes. Qed.
Lemma Value_Float_finishes v : finishes (reflect.Value_Float v).
Proof. unfold reflect.Value_Float. reflect_finishes. Qed.
Lemma Value_Index_finishes v i : finishes (reflect.Value_Index v i).
Proof. unfold reflect.Value_Index. reflect_finishes. Qed.
Lemma Value_Field_finishes v i : finishes (reflect.Value_Field v i).
Proof. unfold reflect.Value_Field. reflect_finishes. Qed.
Lemma Value_MapKeys_finishes v : finishes (reflect.Value_MapKeys v).
Proof. unfold reflect.Value_MapKeys. reflect_finishes. Qed.
Lemma Value_MapIndex_finishes v k : finishes (reflect.Value_MapIndex v k).
Proof. unfold reflect.Value_MapIndex. reflect_finishes. Qed.
Lemma Type_Elem_finishes t : finishes (reflect.Type_Elem t).
Proof. unfold reflect.Type_Elem. reflect_finishes. Qed.
Lemma Type_Key_finishes t : finishes (reflect.Type_Key t).
Proof. unfold reflect.Type_Key. reflect_finishes. Qed.

Lemma mapM_byte_finishes l : finishes (mapM reflect.byte_of_data l).
Proof.
  induction l as [|d l IH]; [done|]. cbn [mapM].
  apply finishes_bind; [destruct d; done|intros b _].
  apply finishes_bind; [exact IH|done].
Qed.

Lemma Value_Bytes_finishes v : finishes (reflect.Value_Bytes v).
Proof.
  unfold reflect.Value_Bytes.
  repeat case_match; try done; apply mapM_byte_finishes.
Qed.

Lemma Copy_finishes dst src : finishes (reflect.Copy dst src).
Proof.
  unfold reflect.Copy.
  repeat case_match; try done;
    (apply finishes_bind; [apply Type_Elem_finishes|intros de _];
     apply finishes_bind; [apply Type_Elem_finishes|intros se _];
     by case_match).
Qed.

Lemma isEmptyValue_finishes v : finishes (isEmptyValue v).
Proof.
  unfold isEmptyValue.
  destruct (reflect.Value_Kind v); try done;
    first [ apply Value_IsNil_finishes
          | apply finishes_bind;
            [ first [ apply Value_Len_finishes | apply Value_Bool_finishes
                    | apply Value_Int_finishes | apply Value_Uint_finishes
                    | apply Value_Float_finishes ]
            | done ] ].
Qed.

(** What reflection reaches from a value is less deep than the value. *)
Lemma depth_lookup (l : list data) i d :
  l !! i = Some d ->
  (depth d <= foldr (fun x n => Nat.max (depth x) n) 0 l)%nat.
Proof.
  revert i. induction l as [|d' l IH]; intros [|i] Hd; try done; cbn in *.
  - injection Hd as ->. lia.
  - specialize (IH i Hd). lia.
Qed.

Lemma Value_Index_depth v i x :
  reflect.Value_Index v i = Done x -> (Value_depth x < Value_depth v)%nat.
Proof.
  unfold reflect.Value_Index. intros Hx.
  repeat case_match; try discriminate Hx; injection Hx as <-; cbn;
    apply Nat.lt_succ_r; by eapply depth_lookup.
Qed.

Lemma Value_MapIndex_depth v key x :
  reflect.Value_MapIndex v key = Done x -> (Value_depth x < Value_depth v)%nat.
Proof.
  unfold reflect.Value_MapIndex. intros Hx.
  repeat case_match; try discriminate Hx; injection Hx as <-; cbn; [|lia].
  apply Nat.lt_succ_r.
  match goal with H : find _ ?l = Some ?kv |- _ =>
    apply find_some in H as [Hin _]; revert Hin; generalize kv; generalize l end.
  intros l' kv Hin. induction l' as [|kv' l' IH]; [done|].
  cbn. destruct Hin as [->|Hin]; [lia|]. specialize (IH Hin). lia.
Qed.

Lemma Value_Field_depth v i x :
  reflect.Value_Field v i = Done x -> (Value_depth x < Value_depth v)%nat.
Proof.
  unfold reflect.Value_Field. intros Hx.
  repeat case_match; try discriminate Hx; injection Hx as <-; cbn;
    apply Nat.lt_succ_r; by eapply depth_lookup.
Qed.

Lemma descend_depth t v v' t' :
  descend t v = Done (v', t') -> (Value_depth v' <= Value_depth v)%nat.
Proof.
  unfold descend, reflect.Value_Elem. intros Hd.
  repeat case_match; subst; cbn in Hd; try discriminate Hd;
    injection Hd as <- <-; cbn; lia.
Qed.

Lemma descend_finishes t v : finishes (descend t v).
Proof.
  unfold descend. case_match; [|done].
  apply finishes_bind; [apply Value_Elem_finishes|intros x _].
  apply finishes_bind; [apply Value_Type_finishes|done].
Qed.

(** The provider of field descriptors hands out fields of the record: its
    accessors use no fuel and yield values less deep than the record. *)
Definition providerDescends : Prop :=
  forall t tinfo finfo val,
    (getTypeInfo t).1 = Some tinfo ->
    finfo ∈ fields tinfo ->
    match fieldInfo_value finfo val with
    | Done x => (Value_depth x < Value_depth val)%nat
    | Panic _ => True
    | OutOfFuel => False
    end.

Section EnoughFuel.

Variable rec : Value -> exec (result E).
Variable n : nat.
Hypothesis Hrec : forall x, (Value_depth x < n)%nat -> finishes (rec x).

Lemma arrayElems_finishes val idx remaining subvalues :
  (Value_depth val <= n)%nat ->
  finishes (arrayElems E rec val idx remaining subvalues).
Proof.
  intros Hd. revert idx subvalues. induction remaining as [|remaining IH];
    intros idx subvalues; cbn [arrayElems]; [done|].
  apply finishes_bind; [apply Value_Index_finishes|intros x Hx].
  apply Value_Index_depth in Hx.
  apply finishes_bind; [apply Hrec; lia|intros [v [err|]] _]; [done|apply IH].
Qed.

Lemma mapEntries_finishes val keys subvalues :
  (Value_depth val <= n)%nat ->
  finishes (mapEntries E rec val keys subvalues).
Proof.
  intros Hd. revert subvalues. induction keys as [|keyv rest IH];
    intros subvalues; cbn [mapEntries]; [done|].
  apply finishes_bind; [apply Value_MapIndex_finishes|intros x Hx].
  apply Value_MapIndex_depth in Hx.
  apply finishes_bind; [apply Hrec; lia|intros [v [err|]] _]; [done|apply IH].
Qed.

Lemma structFields_finishes val finfos subvalues :
  (Value_depth val <= n)%nat ->
  (forall finfo, finfo ∈ finfos ->
     match fieldInfo_value finfo val with
     | Done x => (Value_depth x < Value_depth val)%nat
     | Panic _ => True
     | OutOfFuel => False
     end) ->
  finishes (structFields E rec val finfos subvalues).
Proof.
  intros Hd. revert subvalues. induction finfos as [|finfo rest IH];
    intros subvalues Hprov; cbn [structFields]; [done|].
  pose proof (Hprov finfo ltac:(by left)) as Hx.
  assert (Hrest : finishes (structFields E rec val rest subvalues)
                  /\ forall v, finishes (structFields E rec val rest
                                           (<[fieldInfo_name finfo := v]> subvalues))).
  { split; [|intros v]; apply IH; intros f Hf; apply Hprov; by right. }
  destruct Hrest as [Hskip Hkeep].
  destruct (fieldInfo_value finfo val) as [x| |]; cbn [mbind exec_bind];
    [|done|done].
  apply finishes_bind.
  { destruct (negb _); [done|]. destruct (fieldInfo_omitEmpty finfo); [|done].
    apply isEmptyValue_finishes. }
  intros [|] _; [exact Hskip|].
  apply finishes_bind; [apply Hrec; lia|intros [v [err|]] _]; [done|apply Hkeep].
Qed.

Lemma dataBytes_finishes val : finishes (dataBytes val).
Proof.
  unfold dataBytes. case_match; [apply Value_Bytes_finishes|].
  apply finishes_bind; [apply Value_Len_finishes|intros len _].
  apply finishes_bind; [apply Copy_finishes|intros copied _].
  apply mapM_byte_finishes.
Qed.

Lemma kindSwitch_finishes typ val :
  (Value_depth val <= n)%nat -> finishes (kindSwitch E rec typ val).
Proof.
  intros Hd. unfold kindSwitch.
  destruct (reflect.Type_Kind typ); try done;
    try (apply finishes_bind;
         [ first [ apply Value_Bool_finishes | apply Value_Int_finishes
                 | apply Value_Uint_finishes | apply Value_Float_finishes ]
         | done ]).
  - apply finishes_bind; [apply Type_Elem_finishes|intros elemType _].
    case_match.
    + apply finishes_bind; [apply dataBytes_finishes|done].
    + apply finishes_bind; [apply Value_Len_finishes|intros len _].
      apply finishes_bind; [by apply arrayElems_finishes|done].
  - apply finishes_bind; [apply Type_Key_finishes|intros keyType _].
    case_match; [done|].
    apply finishes_bind; [apply Value_MapKeys_finishes|intros keys _].
    apply finishes_bind; [by apply mapEntries_finishes|done].
  - apply finishes_bind; [apply Type_Elem_finishes|intros elemType _].
    case_match.
    + apply finishes_bind; [apply dataBytes_finishes|done].
    + apply finishes_bind; [apply Value_Len_finishes|intros len _].
      apply finishes_bind; [by apply arrayElems_finishes|done].
Qed.

Hypothesis Hprov : providerDescends.

Lemma dispatch_finishes typ val :
  (Value_depth val <= n)%nat -> finishes (dispatch' rec typ val).
Proof.
  intros Hd. unfold dispatch. case_match.
  - unfold structToPlistValue.
    destruct (getTypeInfo typ).1 as [tinfo|] eqn:Hti; [|done].
    apply structFields_finishes; [done|].
    intros finfo Hin. by apply (Hprov typ tinfo).
  - apply finishes_bind; [by apply kindSwitch_finishes|intros [r|] _; done].
Qed.

Lemma addrProbe_finishes val :
  finishes (addrProbe E Implements MarshalText val).
Proof.
  unfold addrProbe. case_match; [|done].
  apply finishes_bind; [apply Value_Addr_finishes|intros pv _].
  apply finishes_bind; [apply Value_CanInterface_finishes|intros ci _].
  apply finishes_bind; [apply Value_Type_finishes|intros pt _].
  case_match; [|done].
  apply finishes_bind; [apply Value_Interface_finishes|intros i _].
  apply finishes_bind; [|done].
  unfold assertTextMarshaler. by repeat case_match.
Qed.

Lemma body_finishes val :
  (Value_depth val <= n)%nat -> finishes (body rec val).
Proof.
  intros Hd. unfold valueToPlistValue_body.
  apply finishes_bind; [apply Value_Type_finishes|intros typ _].
  case_match; [done|].
  apply finishes_bind; [apply Value_CanInterface_finishes|intros ci _].
  case_match.
  - apply finishes_bind; [apply Value_Interface_finishes|intros i _].
    apply finishes_bind; [|done].
    unfold assertTextMarshaler. by repeat case_match.
  - apply finishes_bind; [apply addrProbe_finishes|intros [r|] _]; [done|].
    apply finishes_bind; [apply descend_finishes|intros [val' typ'] Hvt].
    apply descend_depth in Hvt. apply dispatch_finishes. cbn. lia.
Qed.

End EnoughFuel.

(** Fuel above the depth of the value is enough: the conversion of a
    value, which is a finite tree, comes to an end. *)
Lemma convert_enough_fuel (fuel : nat) (val : Value) :
  providerDescends ->
  (Value_depth val < fuel)%nat ->
  convert fuel val <> OutOfFuel.
Proof.
  intros Hprov. revert val. induction fuel as [|fuel IH]; intros val Hd; [lia|].
  rewrite convert_S. apply (body_finishes _ fuel); [|done|lia].
  intros x Hx. by apply IH.
Qed.

(** * Further properties of the converter *)

(** ** What a call returns *)

(** X1. A call that returns gives a node and a nil error, or a nil node and
    an error: never both, never neither. *)
Theorem result_node_xor_error (fuel : nat) (val : Value) pv err :
  convert fuel val = Done (pv, err) ->
  (is_Some pv /\ err = None) \/ (pv = None /\ is_Some err).
Proof.
  intros Heq.
  pose proof (convert_shaped (fun _ => True)
                (conj (fun _ => I) (fun _ => I)) fuel val) as Hs.
  rewrite Heq in Hs. destruct pv as [p|], err as [e|]; cbn in Hs; try done.
  - left. by split.
  - right. by split.
Qed.

Lemma bind_Done {A B : Type} (m : exec A) (f : A -> exec B) (r : B) :
  m ≫= f = Done r -> exists a, m = Done a /\ f a = Done r.
Proof. destruct m as [a| |]; cbn; [by exists a|done|done]. Qed.

(** A node or nil pointer that is a well-formed node. *)
Definition goodNode (o : option plistValue) : Prop :=
  exists p, o = Some p /\ wellKinded p.

Section WellKinded.

Variable rec : Value -> exec (result E).
Hypothesis Hrec : forall x v, rec x = Done (v, None) -> goodNode v.

Lemma structFields_wellKinded val finfos subvalues p :
  (forall k o, subvalues !! k = Some o -> goodNode o) ->
  structFields E rec val finfos subvalues = Done (Some p, None) ->
  wellKinded p.
Proof.
  revert subvalues. induction finfos as [|finfo rest IH];
    intros subvalues Hsub Heq; cbn [structFields] in Heq.
  { injection Heq as <-. by constructor. }
  apply bind_Done in Heq as (x & _ & Heq).
  apply bind_Done in Heq as ([|] & _ & Heq); [by eapply IH|].
  apply bind_Done in Heq as ([v [e|]] & Hv & Heq); [done|].
  eapply IH; [|exact Heq].
  intros k o Hk. destruct (decide (fieldInfo_name finfo = k)) as [<-|Hne].
  - rewrite lookup_insert_eq in Hk. injection Hk as <-. by apply (Hrec x).
  - rewrite lookup_insert_ne in Hk by done. by eapply Hsub.
Qed.

Lemma mapEntries_wellKinded val keys subvalues p :
  (forall k o, subvalues !! k = Some o -> goodNode o) ->
  mapEntries E rec val keys subvalues = Done (Some p, None) ->
  wellKinded p.
Proof.
  revert subvalues. induction keys as [|keyv rest IH];
    intros subvalues Hsub Heq; cbn [mapEntries] in Heq.
  { injection Heq as <-. by constructor. }
  apply bind_Done in Heq as (x & _ & Heq).
  apply bind_Done in Heq as ([v [e|]] & Hv & Heq); [done|].
  eapply IH; [|exact Heq].
  intros k o Hk.
  destruct (decide (reflect.Value_String keyv = k)) as [<-|Hne].
  - rewrite lookup_insert_eq in Hk. injection Hk as <-. by apply (Hrec x).
  - rewrite lookup_insert_ne in Hk by done. by eapply Hsub.
Qed.

Lemma arrayElems_wellKinded val remaining pre p :
  Forall goodNode pre ->
  arrayElems E rec val (length pre) remaining (pre ++ replicate remaining None)
  = Done (Some p, None) ->
  wellKinded p.
Proof.
  revert pre. induction remaining as [|remaining IH]; intros pre Hpre Heq;
    cbn [arrayElems replicate] in Heq.
  { injection Heq as <-. rewrite app_nil_r. by constructor. }
  apply bind_Done in Heq as (x & _ & Heq).
  apply bind_Done in Heq as ([v [e|]] & Hv & Heq); [done|].
  rewrite insert_app_r_alt, Nat.sub_diag in Heq by lia. cbn in Heq.
  apply (IH (pre ++ [v])).
  - apply Forall_app. split; [done|]. constructor; [|done]. by apply (Hrec x).
  - rewrite length_app, Nat.add_1_r, <- app_assoc. exact Heq.
Qed.

Lemma kindSwitch_wellKinded typ val p :
  kindSwitch E rec typ val = Done (Some (Some p, None)) -> wellKinded p.
Proof.
  unfold kindSwitch. intros Heq.
  destruct (reflect.Type_Kind typ); cbn [mret exec_ret] in Heq;
    try discriminate Heq;
    try (apply bind_Done in Heq as (x & _ & Heq); injection Heq as <-;
         by constructor).
  - apply bind_Done in Heq as (elemType & _ & Heq).
    destruct (reflect.Kind_eqb _ _).
    + apply bind_Done in Heq as (b & _ & Heq). injection Heq as <-. constructor.
    + apply bind_Done in Heq as (len & _ & Heq).
      apply bind_Done in Heq as (r & Hr & Heq). injection Heq as ->.
      by apply (arrayElems_wellKinded val len []).
  - apply bind_Done in Heq as (keyType & _ & Heq).
    destruct (negb _); [discriminate Heq|].
    apply bind_Done in Heq as (keys & _ & Heq).
    apply bind_Done in Heq as (r & Hr & Heq). injection Heq as ->.
    by apply (mapEntries_wellKinded val keys ∅).
  - apply bind_Done in Heq as (elemType & _ & Heq).
    destruct (reflect.Kind_eqb _ _).
    + apply bind_Done in Heq as (b & _ & Heq). injection Heq as <-. constructor.
    + apply bind_Done in Heq as (len & _ & Heq).
      apply bind_Done in Heq as (r & Hr & Heq). injection Heq as ->.
      by apply (arrayElems_wellKinded val len []).
  - injection Heq as <-. constructor.
Qed.

Lemma stringMarshalable_wellKinded m p :
  stringMarshalableToPlistValue E MarshalText m = (Some p, None) ->
  wellKinded p.
Proof.
  unfold stringMarshalableToPlistValue.
  destruct (MarshalText m.1 m.2) as [s [e|]]; intros Heq; [done|].
  injection Heq as <-. constructor.
Qed.

Lemma body_wellKinded val p :
  body rec val = Done (Some p, None) -> wellKinded p.
Proof.
  unfold valueToPlistValue_body. intros Heq.
  apply bind_Done in Heq as (typ & _ & Heq).
  destruct (negb _); [discriminate Heq|].
  apply bind_Done in Heq as (ci & _ & Heq).
  destruct (_ && _).
  { apply bind_Done in Heq as (i & _ & Heq).
    apply bind_Done in Heq as (m & _ & Heq). injection Heq as Heq.
    by eapply stringMarshalable_wellKinded. }
  apply bind_Done in Heq as (probed & Hprobe & Heq).
  destruct probed as [r|].
  { injection Heq as ->. unfold addrProbe in Hprobe.
    destruct (reflect.Value_CanAddr val); [|discriminate Hprobe].
    apply bind_Done in Hprobe as (pv & _ & Hprobe).
    apply bind_Done in Hprobe as (ci' & _ & Hprobe).
    apply bind_Done in Hprobe as (pt & _ & Hprobe).
    destruct (_ && _); [|discriminate Hprobe].
    apply bind_Done in Hprobe as (i & _ & Hprobe).
    apply bind_Done in Hprobe as (m & _ & Hprobe). injection Hprobe as Heq.
    by eapply stringMarshalable_wellKinded. }
  apply bind_Done in Heq as (vt & _ & Heq). unfold dispatch in Heq.
  destruct (reflect.Kind_eqb _ _).
  - unfold structToPlistValue in Heq.
    destruct (getTypeInfo vt.2).1; [|discriminate Heq].
    by eapply (structFields_wellKinded _ _ ∅).
  - apply bind_Done in Heq as ([r|] & Hsw & Heq); [|discriminate Heq].
    injection Heq as ->. by eapply kindSwitch_wellKinded.
Qed.

End WellKinded.

(** X2. The node of a successful conversion is a well-formed tree: at every
    node the payload is of the Go type of the kind, no node is of kind
    [Invalid], and no child of an Array or a Dictionary is a nil pointer. *)
Theorem converted_node_wellKinded (fuel : nat) (val : Value) p :
  convert fuel val = Done (Some p, None) -> wellKinded p.
Proof.
  revert val p. induction fuel as [|fuel IH]; intros val p Heq; [done|].
  rewrite convert_S in Heq. eapply body_wellKinded; [|exact Heq].
  intros x v Hx. destruct v as [q|].
  - exists q. split; [done|]. by eapply IH.
  - exfalso.
    pose proof (convert_shaped (fun _ => True)
                  (conj (fun _ => I) (fun _ => I)) fuel x) as Hs.
    by rewrite Hx in Hs.
Qed.

(** ** Scalars and unsupported kinds *)

(** X3. Text, booleans and floating-point numbers of either width become
    a String, a Boolean and a Real node holding the value of the source. *)
Theorem scalar_nodes (fuel : nat) (name : string) (fl : reflect.flag) :
  (forall s,
     plain' (reflect.V (reflect.Tstring name) (reflect.DString s) fl) = true ->
     convert (S fuel) (reflect.V (reflect.Tstring name) (reflect.DString s) fl)
     = Done (Some (mkPlistValue String (GoString s)), None))
  /\ (forall b,
        plain' (reflect.V (reflect.Tbool name) (reflect.DBool b) fl) = true ->
        convert (S fuel) (reflect.V (reflect.Tbool name) (reflect.DBool b) fl)
        = Done (Some (mkPlistValue Boolean (GoBool b)), None))
  /\ (forall w f,
        plain' (reflect.V (reflect.Tfloat name w) (reflect.DFloat f) fl) = true ->
        convert (S fuel) (reflect.V (reflect.Tfloat name w) (reflect.DFloat f) fl)
        = Done (Some (mkPlistValue Real (GoFloat64 f)), None)).
Proof.
  split; [|split].
  - intros s Hpl. by rewrite convert_switch.
  - intros b Hpl. by rewrite convert_switch.
  - intros w f Hpl. rewrite convert_switch by (done || by destruct w).
    by destruct w.
Qed.

(** X4. A value of kind Uintptr, Complex64, Complex128, Chan, Func or
    UnsafePointer that exposes no text rendering fails with the
    [UnknownTypeError] of its type, whose message is "Unknown type "
    followed by the name of the type. *)
Theorem unsupported_kind_error (fuel : nat) t d fl :
  plain' (reflect.V t d fl) = true ->
  unsupportedKind (reflect.Type_Kind t) = true ->
  convert (S fuel) (reflect.V t d fl) = Done (None, Some (UnknownTypeError t))
  /\ Error (UnknownTypeError t : error E)
     = Some ("Unknown type " +:+ reflect.Type_String t).
Proof.
  intros Hpl Hk. split; [|reflexivity].
  rewrite convert_switch by (done || intros Heq; by rewrite Heq in Hk).
  unfold kindSwitch. by destruct (reflect.Type_Kind t).
Qed.

(** ** Edges of the text-rendering probes *)

(** X7. A nil interface whose static type has the [MarshalText] method
    passes the value-level probe, and the type assertion on its nil content
    panics: the conversion neither renders text nor returns. *)
Theorem nil_text_interface_panics (fuel : nat) (name : string) fl :
  reflect.flagRO fl = false ->
  Implements (reflect.Tinterface name) textMarshalerType = true ->
  convert (S fuel) (reflect.V (reflect.Tinterface name) (reflect.DIface None) fl)
  = Panic "interface conversion: interface is nil, not encoding.TextMarshaler".
Proof.
  intros Hro Himpl. rewrite convert_S. unfold valueToPlistValue_body. cbn.
  by rewrite Hro, Himpl.
Qed.

(** ** Edges of the Data branch *)

(** X6. A byte sequence that is not addressable and was reached through an
    unexported field makes [reflect.Copy] panic. *)
Theorem unexported_bytes_panic (fuel : nat) t e (l : list data) fl :
  reflect.Type_Kind t = reflect.Slice \/ reflect.Type_Kind t = reflect.Array ->
  reflect.Type_Elem t = Done e ->
  reflect.Type_Kind e = reflect.Uint8 ->
  wellFormed (reflect.V t (reflect.DList l) fl) = true ->
  reflect.flagAddr fl = false ->
  reflect.flagRO fl = true ->
  convert (S fuel) (reflect.V t (reflect.DList l) fl)
  = Panic "reflect.Copy: value obtained using unexported field".
Proof.
  intros Hk He Hke Hwf Haddr Hro.
  assert (Hpl : plain' (reflect.V t (reflect.DList l) fl) = true).
  { unfold plain, exposesText, exposesTextByAddr. rewrite Hro.
    cbn. by rewrite andb_false_r. }
  rewrite convert_switch by (done || destruct Hk as [Hk|Hk]; rewrite Hk; done).
  unfold kindSwitch, dataBytes. cbn [reflect.Value_CanAddr]. rewrite Haddr.
  destruct t; try discriminate He; try (by destruct Hk); injection He as ->;
    cbn -[reflect.rtype_eqb]; rewrite Hke; cbn -[reflect.rtype_eqb];
    by rewrite Hro.
Qed.

(** ** The loops, as the conversion of a container *)

Lemma convert_sequence (fuel : nat) t d fl e :
  let val := reflect.V t d fl in
  plain' val = true ->
  wellFormed val = true ->
  reflect.Type_Kind t = reflect.Slice \/ reflect.Type_Kind t = reflect.Array ->
  reflect.Type_Elem t = Done e ->
  reflect.Type_Kind e <> reflect.Uint8 ->
  convert (S fuel) val
  = arrayElems E (convert fuel) val 0 (length (elements val))
      (replicate (length (elements val)) None).
Proof.
  intros val Hpl Hwf Hk He Hke.
  assert (Hlen : reflect.Value_Len val = Done (length (elements val))).
  { subst val. destruct t; try discriminate He; try (by destruct Hk);
      destruct d; try discriminate Hwf; cbn in *; rewrite length_map; [|done].
    apply Nat.eqb_eq in Hwf. by subst len. }
  subst val. rewrite convert_switch
    by (done || destruct Hk as [Hk|Hk]; rewrite Hk; done).
  unfold kindSwitch.
  assert (Hne : reflect.Kind_eqb (reflect.Type_Kind e) reflect.Uint8 = false)
    by (destruct (reflect.Type_Kind e); done).
  destruct Hk as [Hk|Hk]; rewrite Hk; cbn [mbind exec_bind]; rewrite He;
    cbn [mbind exec_bind]; rewrite Hne, Hlen;
    cbn [mbind exec_bind mret exec_ret];
    by destruct (arrayElems _ _ _ _ _ _).
Qed.

Lemma convert_record (fuel : nat) t d fl tinfo :
  plain' (reflect.V t d fl) = true ->
  reflect.Type_Kind t = reflect.Struct ->
  (getTypeInfo t).1 = Some tinfo ->
  convert (S fuel) (reflect.V t d fl)
  = structFields E (convert fuel) (reflect.V t d fl) (fields tinfo) ∅.
Proof.
  intros Hpl Hk Hti. rewrite convert_S, body_plain by done.
  rewrite descend_other by (rewrite Hk; done).
  cbn. unfold dispatch, structToPlistValue. by rewrite Hk, Hti.
Qed.

Lemma convert_text_map (fuel : nat) name k e kvs fl :
  plain' (reflect.V (reflect.Tmap name k e) (textKeyed kvs) fl) = true ->
  reflect.Type_Kind k = reflect.String ->
  convert (S fuel) (reflect.V (reflect.Tmap name k e) (textKeyed kvs) fl)
  = mapEntries E (convert fuel)
      (reflect.V (reflect.Tmap name k e) (textKeyed kvs) fl)
      (map (fun kv : string * data =>
              reflect.V k (reflect.DString kv.1)
                (reflect.mkflag false (reflect.flagRO fl))) kvs) ∅.
Proof.
  intros Hpl Hk. rewrite convert_switch by done.
  unfold kindSwitch. cbn [reflect.Type_Kind reflect.Type_Key mbind exec_bind].
  rewrite Hk. cbn. rewrite map_map. cbn.
  by destruct (mapEntries _ _ _ _ _).
Qed.

Lemma convert_nil (fuel : nat) (val : Value) :
  plain' val = true ->
  reflect.Value_Elem val = Done reflect.Zero ->
  convert (S fuel) val
  = Panic "reflect: call of reflect.Value.Type on zero Value".
Proof.
  destruct val as [|t d fl]; intros Hpl HE; [discriminate|].
  rewrite convert_S, body_plain by done.
  by rewrite (descend_Elem _ _ _ _ HE).
Qed.

(** ** Panics inside a container *)

Section Panics.

Variable rec : Value -> exec (result E).
Variable val : Value.

Lemma arrayElems_first_panic xs1 x xs2 msg :
  wellFormed val = true ->
  Forall (fun x' => exists v', rec x' = Done (v', None)) xs1 ->
  rec x = Panic msg ->
  forall done subvalues,
    elements val = done ++ xs1 ++ x :: xs2 ->
    arrayElems E rec val (length done) (length (xs1 ++ x :: xs2)) subvalues
    = Panic msg.
Proof.
  intros Hwf Hok Hx. induction Hok as [|x' xs1 [v' Hx'] _ IH];
    intros done subvalues Hel; cbn [app length arrayElems].
  - rewrite (Index_elements val (length done) x Hwf)
      by (rewrite Hel; apply list_lookup_middle; done).
    cbn. by rewrite Hx.
  - rewrite (Index_elements val (length done) x' Hwf)
      by (rewrite Hel; apply list_lookup_middle; done).
    cbn. rewrite Hx'. cbn.
    specialize (IH (done ++ [x']) (<[length done:=v']> subvalues)).
    rewrite length_app, Nat.add_1_r in IH. apply IH.
    by rewrite Hel, <- app_assoc.
Qed.

Lemma structFields_first_panic finfos1 finfo finfos2 outs1 x msg :
  Forall2 (fieldStep E rec val) finfos1 outs1 ->
  fieldInfo_value finfo val = Done x ->
  reflect.Value_IsValid x = true ->
  fieldInfo_omitEmpty finfo = false \/ isEmptyValue x = Done false ->
  rec x = Panic msg ->
  forall subvalues,
    structFields E rec val (finfos1 ++ finfo :: finfos2) subvalues = Panic msg.
Proof.
  intros Hok Hx Hvalid Hkeep Hrec.
  induction Hok as [|f o finfos1 outs1 Hstep _ IH]; intros subvalues.
  - cbn [app structFields]. rewrite Hx. cbn [mbind exec_bind].
    rewrite Hvalid. cbn [negb mbind exec_bind mret exec_ret].
    destruct Hkeep as [Homit|Hempty].
    + rewrite Homit. cbn. by rewrite Hrec.
    + destruct (fieldInfo_omitEmpty finfo); cbn; [rewrite Hempty; cbn|];
        by rewrite Hrec.
  - cbn [app]. rewrite (structFields_step _ _ f o) by done. apply IH.
Qed.

(** A descriptor whose field is skipped may as well not be there. *)
Lemma structFields_skip finfos1 finfo finfos2 :
  fieldStep E rec val finfo Skipped ->
  forall subvalues,
    structFields E rec val (finfos1 ++ finfo :: finfos2) subvalues
    = structFields E rec val (finfos1 ++ finfos2) subvalues.
Proof.
  intros Hskip. induction finfos1 as [|f finfos1 IH]; intros subvalues.
  - cbn [app]. by rewrite (structFields_step _ _ finfo Skipped).
  - cbn [app structFields].
    destruct (fieldInfo_value f val) as [y| |]; cbn [mbind exec_bind]; try done.
    destruct (if negb (reflect.Value_IsValid y) then mret true
              else if fieldInfo_omitEmpty f then isEmptyValue y else mret false)
      as [[|]| |]; cbn [mbind exec_bind]; try done.
    destruct (rec y) as [[v [err|]]| |]; cbn [mbind exec_bind]; done.
Qed.

End Panics.

Lemma isEmptyValue_nil (x : Value) :
  reflect.Value_Elem x = Done reflect.Zero -> isEmptyValue x = Done true.
Proof.
  destruct x as [|t d fl]; [done|].
  destruct t; try done; destruct d as [| | | | | | |[d|]|[[t' d']|]| |]; done.
Qed.

(** X9. A field that holds a nil pointer or a nil interface: when its
    descriptor says "omit if empty" the loop of [structToPlistValue] passes
    over it as if the descriptor were not there; when it does not, and the
    fields before it are converted, the conversion of the record panics. *)
Theorem nil_field_omitted_or_panics (fuel : nat) (val : Value)
    finfos1 finfo finfos2 x :
  fieldInfo_value finfo val = Done x ->
  reflect.Value_Elem x = Done reflect.Zero ->
  (fieldInfo_omitEmpty finfo = true ->
   forall rec subvalues,
     structFields E rec val (finfos1 ++ finfo :: finfos2) subvalues
     = structFields E rec val (finfos1 ++ finfos2) subvalues)
  /\ (fieldInfo_omitEmpty finfo = false ->
      plain' x = true ->
      forall t d fl tinfo outs1,
        val = reflect.V t d fl ->
        plain' val = true ->
        reflect.Type_Kind t = reflect.Struct ->
        (getTypeInfo t).1 = Some tinfo ->
        fields tinfo = finfos1 ++ finfo :: finfos2 ->
        Forall2 (fieldStep E (convert (S fuel)) val) finfos1 outs1 ->
        convert (S (S fuel)) val
        = Panic "reflect: call of reflect.Value.Type on zero Value").
Proof.
  intros Hx HE. split.
  - intros Homit rec subvalues. apply structFields_skip.
    exists x. split; [done|]. right. split; [done|]. by apply isEmptyValue_nil.
  - intros Homit Hplx t d fl tinfo outs1 -> Hpl Hk Hti Hfs Hok.
    rewrite (convert_record _ _ _ _ tinfo) by done. rewrite Hfs.
    eapply structFields_first_panic; try done.
    + by destruct x.
    + by left.
    + by apply convert_nil.
Qed.

(** X10. When an element of a slice or an array makes the conversion panic,
    the elements before it having converted, the conversion of the
    sequence panics the same way: a nil pointer among the elements is
    enough. *)
Theorem sequence_element_panics (fuel : nat) t d fl e xs1 x xs2 msg :
  let val := reflect.V t d fl in
  plain' val = true ->
  wellFormed val = true ->
  reflect.Type_Kind t = reflect.Slice \/ reflect.Type_Kind t = reflect.Array ->
  reflect.Type_Elem t = Done e ->
  reflect.Type_Kind e <> reflect.Uint8 ->
  elements val = xs1 ++ x :: xs2 ->
  Forall (fun x' => exists v', convert fuel x' = Done (v', None)) xs1 ->
  convert fuel x = Panic msg ->
  convert (S fuel) val = Panic msg.
Proof.
  intros val Hpl Hwf Hk He Hke Hel Hok Hx. subst val.
  rewrite (convert_sequence fuel t d fl e) by done. rewrite Hel.
  by apply (arrayElems_first_panic _ _ xs1 x xs2 msg Hwf Hok Hx []).
Qed.

(** ** Descriptors with the same name *)

(** Assignments to a Go map, in order: a later one to the same key
    replaces an earlier one. *)
Lemma foldl_insert_reverse {A : Type} (l : list (string * A)) (sub : gmap string A) :
  foldl (fun m kv => <[kv.1 := kv.2]> m) sub l = list_to_map (reverse l) ∪ sub.
Proof.
  revert sub. induction l as [|[k v] l IH]; intros sub.
  { cbn. by rewrite (left_id_L ∅ (∪)). }
  cbn [foldl]. rewrite IH, reverse_cons, list_to_map_app.
  rewrite <- (assoc_L (∪)). f_equal. cbn.
  by rewrite <- insert_union_l, (left_id_L ∅ (∪)).
Qed.

Lemma emitted_app finfos1 outs1 finfos2 outs2 :
  length finfos1 = length outs1 ->
  emitted (finfos1 ++ finfos2) (outs1 ++ outs2)
  = emitted finfos1 outs1 ++ emitted finfos2 outs2.
Proof.
  revert outs1. induction finfos1 as [|f finfos1 IH]; intros [|[|v] outs1] Hlen;
    try done; injection Hlen as Hlen; cbn; by rewrite IH.
Qed.

(** X11. When two descriptors of a record have the same name and both
    fields are stored, the Dictionary holds the node of the later one: the
    entry of a stored field is its node whenever no field stored after it
    has its name. *)
Theorem record_last_name_wins (fuel : nat) t d fl tinfo
    finfos1 finfo finfos2 outs1 v outs2 :
  let val := reflect.V t d fl in
  plain' val = true ->
  reflect.Type_Kind t = reflect.Struct ->
  (getTypeInfo t).1 = Some tinfo ->
  fields tinfo = finfos1 ++ finfo :: finfos2 ->
  Forall2 (fieldStep E (convert fuel) val) finfos1 outs1 ->
  fieldStep E (convert fuel) val finfo (Emitted v) ->
  Forall2 (fieldStep E (convert fuel) val) finfos2 outs2 ->
  fieldInfo_name finfo ∉ (emitted finfos2 outs2).*1 ->
  exists m : gmap string (option plistValue),
    convert (S fuel) val = Done (Some (mkPlistValue Dictionary (GoMap m)), None)
    /\ m !! fieldInfo_name finfo = Some v.
Proof.
  intros val Hpl Hk Hti Hfs Hok1 Hstep Hok2 Hlast. subst val.
  rewrite (convert_record _ _ _ _ tinfo) by done. rewrite Hfs.
  assert (Hall : Forall2 (fieldStep E (convert fuel) (reflect.V t d fl))
                   (finfos1 ++ finfo :: finfos2)
                   (outs1 ++ Emitted v :: outs2)).
  { apply Forall2_app; [done|]. by constructor. }
  rewrite (structFields_all _ _ _ _ Hall), foldl_insert_reverse.
  eexists. split; [reflexivity|].
  rewrite (right_id_L ∅ (∪)).
  rewrite emitted_app by (by eapply Forall2_length).
  cbn [emitted]. rewrite reverse_app, reverse_cons, <- app_assoc.
  rewrite list_to_map_app. apply lookup_union_Some_raw. right. split.
  - apply not_elem_of_list_to_map_1. rewrite fmap_reverse.
    by rewrite elem_of_reverse.
  - cbn. by rewrite lookup_insert_eq.
Qed.

(** ** The order of the entries of a map *)

(** X12. When every element of a map with text keys converts, the
    Dictionary is the same in whatever order the runtime hands out the
    keys. *)
Theorem map_order_irrelevant (fuel : nat) (name : string) (k e : rtype)
    (fl : reflect.flag) (kvs kvs' : list (string * data))
    (f : string * data -> option plistValue) :
  plain' (reflect.V (reflect.Tmap name k e) (textKeyed kvs) fl) = true ->
  reflect.Type_Kind k = reflect.String ->
  NoDup kvs.*1 ->
  kvs ≡ₚ kvs' ->
  (forall kv, kv ∈ kvs ->
     convert fuel (reflect.V e kv.2 (reflect.mkflag false (reflect.flagRO fl)))
     = Done (f kv, None)) ->
  convert (S fuel) (reflect.V (reflect.Tmap name k e) (textKeyed kvs') fl)
  = convert (S fuel) (reflect.V (reflect.Tmap name k e) (textKeyed kvs) fl).
Proof.
  intros Hpl Hk Hnd Hperm Hf.
  assert (Hresult : forall l,
            l ≡ₚ kvs ->
            convert (S fuel) (reflect.V (reflect.Tmap name k e) (textKeyed l) fl)
            = Done (Some (mkPlistValue Dictionary
                            (GoMap (list_to_map
                                      ((fun kv => (kv.1, f kv)) <$> l)))), None)).
  { intros l Hl.
    assert (Hndl : NoDup l.*1) by (by rewrite Hl).
    assert (Hall : Forall2
              (fun kv v =>
                 convert fuel (reflect.V e kv.2
                                 (reflect.mkflag false (reflect.flagRO fl)))
                 = Done (v, None)) l (f <$> l)).
    { apply Forall2_fmap_r, Forall_Forall2_diag, Forall_forall.
      intros kv Hin. apply Hf. by rewrite <- Hl. }
    rewrite convert_text_map by done.
    rewrite (mapEntries_all _ name k e l fl Hndl Hk l _ Hall []) by done.
    assert (Hzip : zip l.*1 (f <$> l) = (fun kv => (kv.1, f kv)) <$> l).
    { clear. induction l as [|kv l IH]; [done|]. cbn. by rewrite IH. }
    rewrite foldl_insert_NoDup, (right_id_L ∅ (∪)), Hzip; [done|].
    rewrite fst_zip; [done|]. by rewrite !length_fmap. }
  rewrite (Hresult kvs') by done. rewrite (Hresult kvs) by done.
  do 5 f_equal. apply list_to_map_proper.
  - rewrite <- list_fmap_compose.
    assert (Heq : (fst ∘ (fun kv : string * data => (kv.1, f kv))) <$> kvs'
                  = kvs'.*1) by (by apply list_fmap_ext).
    rewrite Heq. by rewrite <- Hperm.
  - by rewrite Hperm.
Qed.

(** ** Termination *)

(** X13. The conversion of a value comes to an end, with a result or a
    panic, when the provider hands out fields of the record: any fuel above
    the nesting depth of the value gives the same outcome, and it is not
    the lack of fuel. *)
Theorem conversion_terminates (fuel fuel' : nat) (val : Value) :
  providerDescends ->
  (Value_depth val < fuel)%nat ->
  (Value_depth val < fuel')%nat ->
  convert fuel val = convert fuel' val /\ convert fuel val <> OutOfFuel.
Proof.
  intros Hprov Hd Hd'.
  pose proof (convert_enough_fuel (S (Value_depth val)) val Hprov
                ltac:(lia)) as Hend.
  rewrite (convert_more_fuel (S (Value_depth val)) fuel val _ ltac:(lia)
             eq_refl Hend).
  rewrite (convert_more_fuel (S (Value_depth val)) fuel' val _ ltac:(lia)
             eq_refl Hend).
  by split.
Qed.

(** ** Empty containers *)

(** X14. A sequence without elements, a text-keyed map without entries and
    a record without descriptors are converted to a node, an Array or a
    Dictionary with nothing in it. *)
Theorem empty_containers (fuel : nat) :
  (forall t d fl e,
     let val := reflect.V t d fl in
     plain' val = true ->
     wellFormed val = true ->
     reflect.Type_Kind t = reflect.Slice \/ reflect.Type_Kind t = reflect.Array ->
     reflect.Type_Elem t = Done e ->
     reflect.Type_Kind e <> reflect.Uint8 ->
     elements val = [] ->
     convert (S fuel) val = Done (Some (mkPlistValue Array (GoSlice [])), None))
  /\ (forall name k e fl,
        let val := reflect.V (reflect.Tmap name k e) (textKeyed []) fl in
        plain' val = true ->
        reflect.Type_Kind k = reflect.String ->
        convert (S fuel) val = Done (Some (mkPlistValue Dictionary (GoMap ∅)), None))
  /\ (forall t d fl,
        let val := reflect.V t d fl in
        plain' val = true ->
        reflect.Type_Kind t = reflect.Struct ->
        (getTypeInfo t).1 = Some (mkTypeInfo []) ->
        convert (S fuel) val = Done (Some (mkPlistValue Dictionary (GoMap ∅)), None)).
Proof.
  split; [|split].
  - intros t d fl e val Hpl Hwf Hk He Hke Hel. subst val.
    rewrite (convert_sequence fuel t d fl e) by done. by rewrite Hel.
  - intros name k e fl val Hpl Hk. subst val.
    by rewrite convert_text_map.
  - intros t d fl val Hpl Hk Hti. subst val.
    by rewrite (convert_record _ _ _ _ (mkTypeInfo [])).
Qed.

(** ** Text rendering behind an interface *)

Lemma convert_text_value (fuel : nat) t d fl :
  reflect.flagRO fl = false ->
  Implements t textMarshalerType = true ->
  reflect.Type_Kind t <> reflect.Interface ->
  convert (S fuel) (reflect.V t d fl)
  = Done (stringMarshalableToPlistValue E MarshalText (t, d)).
Proof.
  intros Hro Himpl Hk. rewrite convert_S. unfold valueToPlistValue_body.
  cbn. rewrite Hro, Himpl. cbn.
  destruct t; try (cbn; by rewrite Himpl). by destruct Hk.
Qed.

(** X15. A record whose type has the [MarshalText] method is rendered as
    text when converted itself, but is converted field by field when it is
    what an interface without the method holds: after the one unwrapping the
    probes are not made again. *)
Theorem text_lost_behind_interface (fuel : nat) (name : string) t d fl tinfo :
  let held := reflect.V t d (reflect.mkflag false (reflect.flagRO fl)) in
  let val := reflect.V (reflect.Tinterface name) (reflect.DIface (Some (t, d))) fl in
  plain' val = true ->
  reflect.flagRO fl = false ->
  Implements t textMarshalerType = true ->
  reflect.Type_Kind t = reflect.Struct ->
  (getTypeInfo t).1 = Some tinfo ->
  convert (S fuel) held
  = Done (stringMarshalableToPlistValue E MarshalText (t, d))
  /\ convert (S fuel) val
     = structFields E (convert fuel) held (fields tinfo) ∅.
Proof.
  intros held val Hpl Hro Himpl Hk Hti. subst held val. split.
  - apply convert_text_value; [done|done|by rewrite Hk].
  - rewrite convert_S, body_plain by done.
    cbn -[valueToPlistValue]. unfold dispatch, structToPlistValue.
    by rewrite Hk, Hti.
Qed.

End ConverterFacts.

(** X8. A value reached through an unexported field passes neither probe:
    what one call does with it is the same under any method sets and any
    [MarshalText] methods. *)
Theorem unexported_value_never_text {E : Type}
    (Implements Implements' : rtype -> rtype -> bool)
    (MarshalText MarshalText' : rtype -> data -> list byte * option E)
    (getTypeInfo : rtype -> option typeInfo * option (error E))
    (rec : Value -> exec (result E)) t d fl :
  reflect.flagRO fl = true ->
  valueToPlistValue_body E Implements MarshalText getTypeInfo rec
    (reflect.V t d fl)
  = valueToPlistValue_body E Implements' MarshalText' getTypeInfo rec
      (reflect.V t d fl).
Proof.
  intros Hro.
  assert (Hpl : forall I, plain I (reflect.V t d fl) = true).
  { intros I. unfold plain, exposesText, exposesTextByAddr. rewrite Hro.
    cbn. by rewrite andb_false_r. }
  by rewrite !body_plain.
Qed.

(** ** The theorems at work *)

Module Witnesses.

Import Examples.

Lemma absent_value_panics_witness :
  plain noText nilPtr = true
  /\ reflect.Value_Elem nilPtr = Done reflect.Zero
  /\ valueToPlistValue Empty_set noText noMarshal noInfo 1 nilPtr
     = Panic "reflect: call of reflect.Value.Type on zero Value".
Proof.
  split; [reflexivity|]. split; [reflexivity|].
  apply (proj1 (proj2 (absent_value_panics noText noMarshal noInfo 0)));
    reflexivity.
Defined.

Lemma descend_once_witness :
  plain noText ptrFive = true
  /\ reflect.Value_Elem ptrFive
     = Done (reflect.V intType (reflect.DInt 5) (reflect.mkflag true false))
  /\ valueToPlistValue Empty_set noText noMarshal noInfo 2 ptrFive
     = valueToPlistValue Empty_set noText noMarshal noInfo 2
         (reflect.V intType (reflect.DInt 5) (reflect.mkflag true false)).
Proof.
  split; [reflexivity|]. split; [reflexivity|].
  apply (descend_once noText noMarshal noInfo 1 ptrFive
           intType (reflect.DInt 5) (reflect.mkflag true false));
    try reflexivity; discriminate.
Defined.

Lemma text_marshaler_precedence_witness :
  textReceiver stampText stamp
  = Some (stampType, reflect.DStruct [reflect.DInt 7])
  /\ stampText stampType textMarshalerType = true
  /\ valueToPlistValue Empty_set stampText stampMarshal noInfo 1 stamp
     = Done (Some (mkPlistValue String (GoBytes [111; 107])), None).
Proof.
  split; [reflexivity|]. split; [reflexivity|].
  apply (text_marshaler_precedence stampText stampMarshal noInfo 0 stamp
           (stampType, reflect.DStruct [reflect.DInt 7]));
    reflexivity.
Defined.

Lemma integer_signedness_witness :
  plain noText (reflect.ValueOf uint64Type (reflect.DUint (2 ^ 64 - 1))) = true
  /\ 0 <= 2 ^ 64 - 1 < 2 ^ reflect.bits reflect.W64
  /\ valueToPlistValue Empty_set noText noMarshal noInfo 1
       (reflect.ValueOf uint64Type (reflect.DUint (2 ^ 64 - 1)))
     = Done (Some (mkPlistValue Integer (GoUint64 18446744073709551615)), None).
Proof.
  split; [reflexivity|]. split; [cbn; lia|].
  apply (proj1 (integer_signedness noText noMarshal noInfo 0 "uint64"
                  reflect.W64 (reflect.mkflag false false)));
    [reflexivity|cbn; lia].
Defined.

Lemma unaddressable_named_bytes_panic_witness :
  plain noText myBytes = true
  /\ reflect.Type_Kind myByteType = reflect.Uint8
  /\ reflect.rtype_eqb reflect.uint8Type myByteType = false
  /\ valueToPlistValue Empty_set noText noMarshal noInfo 1 myBytes
     = Panic "reflect.Copy: uint8 != main.MyByte".
Proof.
  split; [reflexivity|]. split; [reflexivity|]. split; [reflexivity|].
  apply (unaddressable_named_bytes_panic noText noMarshal noInfo 0
           "[]main.MyByte" myByteType); reflexivity.
Defined.

Lemma isEmptyValue_spec_witness :
  wellFormed (reflect.ValueOf stringType (reflect.DString "")) = true
  /\ isEmptyValue (reflect.ValueOf stringType (reflect.DString "")) = Done true.
Proof.
  split; [reflexivity|].
  apply (isEmptyValue_spec (reflect.ValueOf stringType (reflect.DString "")));
    reflexivity.
Defined.

Lemma sequence_to_array_witness :
  plain noText oneTwo = true
  /\ wellFormed oneTwo = true
  /\ reflect.Type_Kind intType <> reflect.Uint8
  /\ valueToPlistValue Empty_set noText noMarshal noInfo 2 oneTwo
     = Done (Some (mkPlistValue Array
                     (GoSlice [Some (mkPlistValue Integer (GoInt64 1));
                               Some (mkPlistValue Integer (GoInt64 2))])),
             None).
Proof.
  split; [reflexivity|]. split; [reflexivity|]. split; [discriminate|].
  apply (proj1 (sequence_to_array noText noMarshal noInfo 1
                  (reflect.Tslice "[]int" intType)
                  (reflect.DList [reflect.DInt 1; reflect.DInt 2])
                  (reflect.mkflag false false) intType
                  eq_refl eq_refl (or_introl eq_refl) eq_refl
                  ltac:(discriminate))).
  repeat constructor.
Defined.

Lemma map_to_dictionary_witness :
  plain noText mapAB = true
  /\ reflect.Type_Kind stringType = reflect.String
  /\ NoDup ["a"; "b"]
  /\ valueToPlistValue Empty_set noText noMarshal noInfo 2 mapAB
     = Done (Some (mkPlistValue Dictionary
                     (GoMap (list_to_map
                        [("a", Some (mkPlistValue Integer (GoInt64 1)));
                         ("b", Some (mkPlistValue Integer (GoInt64 2)))]))),
             None).
Proof.
  assert (Hnd : NoDup ["a"; "b"]).
  { apply NoDup_cons. split; [|apply NoDup_singleton].
    intros Hin. apply list_elem_of_singleton in Hin. discriminate Hin. }
  split; [reflexivity|]. split; [reflexivity|]. split; [exact Hnd|].
  apply (proj1 (proj1 (map_to_dictionary noText noMarshal noInfo 1
                         "map[string]int" stringType intType
                         (reflect.mkflag false false))
                  [("a", reflect.DInt 1); ("b", reflect.DInt 2)]
                  eq_refl eq_refl Hnd)
           [Some (mkPlistValue Integer (GoInt64 1));
            Some (mkPlistValue Integer (GoInt64 2))]).
  repeat constructor.
Defined.

Lemma record_to_dictionary_witness :
  plain noText exampleRecord = true
  /\ reflect.Type_Kind exampleRecordType = reflect.Struct
  /\ (recordInfo exampleRecordType).1 = Some exampleRecordInfo
  /\ valueToPlistValue Empty_set noText noMarshal recordInfo 2 exampleRecord
     = Done (Some (mkPlistValue Dictionary
                     (GoMap {[ "Count" := Some (mkPlistValue Integer (GoInt64 0)) ]})),
             None).
Proof.
  assert (Hnd : NoDup (fieldInfo_name <$> fields exampleRecordInfo)).
  { apply NoDup_cons. split; [|apply NoDup_singleton].
    intros Hin. apply list_elem_of_singleton in Hin. discriminate Hin. }
  split; [reflexivity|]. split; [reflexivity|]. split; [reflexivity|].
  apply (proj2 (proj2 (record_to_dictionary noText noMarshal recordInfo 0
                         exampleRecordType
                         (reflect.DStruct [reflect.DString ""; reflect.DInt 0])
                         (reflect.mkflag false false) exampleRecordInfo
                         eq_refl eq_refl eq_refl Hnd)));
    reflexivity.
Defined.

(** C2, as the spec states it, fails on a pointer to a pointer to an
    integer: [&&5] does not convert to what [5] converts to, but to the
    error that names the type [*int]. *)
Lemma nested_pointer_counterexample :
  valueToPlistValue Empty_set noText noMarshal noInfo 3 ptrPtrFive
  = Done (None, Some (UnknownTypeError ptrIntType))
  /\ valueToPlistValue Empty_set noText noMarshal noInfo 3 five
     = Done (Some (mkPlistValue Integer (GoInt64 5)), None)
  /\ valueToPlistValue Empty_set noText noMarshal noInfo 3 ptrPtrFive
     <> valueToPlistValue Empty_set noText noMarshal noInfo 3 five.
Proof.
  split; [reflexivity|]. split; [reflexivity|]. discriminate.
Qed.

(** The provider of the example hands out fields, so the conversion of
    the example record ends with any fuel above its depth. *)
Lemma recordInfo_descends : providerDescends recordInfo.
Proof.
  intros t tinfo finfo val Hti Hin. unfold recordInfo in Hti.
  destruct (reflect.rtype_eqb t exampleRecordType); [|discriminate Hti].
  injection Hti as <-. cbn in Hin.
  apply elem_of_cons in Hin as [->|Hin];
    [|apply list_elem_of_singleton in Hin as ->]; cbn;
    (destruct (reflect.Value_Field val _) as [x| |] eqn:Hx;
     [by eapply Value_Field_depth|done|by eapply Value_Field_finishes]).
Qed.

Lemma exampleRecord_ends (fuel : nat) :
  (1 < fuel)%nat ->
  valueToPlistValue Empty_set noText noMarshal recordInfo fuel exampleRecord
  = Done (Some (mkPlistValue Dictionary
                  (GoMap {[ "Count" := Some (mkPlistValue Integer (GoInt64 0)) ]})),
          None).
Proof.
  intros Hfuel. apply (convert_more_fuel noText noMarshal recordInfo 2 fuel);
    [lia|reflexivity|discriminate].
Qed.

End Witnesses.

Module MoreWitnesses.

Import Examples MoreExamples.

#[local] Abbreviation run := (valueToPlistValue Empty_set noText noMarshal noInfo).

Lemma result_node_xor_error_witness :
  run 1 five = Done (Some (mkPlistValue Integer (GoInt64 5)), None)
  /\ ((is_Some (Some (mkPlistValue Integer (GoInt64 5)))
       /\ (None : option (error Empty_set)) = None)
      \/ (Some (mkPlistValue Integer (GoInt64 5)) = None
          /\ is_Some (None : option (error Empty_set)))).
Proof.
  split; [reflexivity|].
  apply (result_node_xor_error noText noMarshal noInfo 1 five). reflexivity.
Defined.

Lemma converted_node_wellKinded_witness :
  wellKinded (mkPlistValue Array
                (GoSlice [Some (mkPlistValue Integer (GoInt64 1));
                          Some (mkPlistValue Integer (GoInt64 2))])).
Proof.
  apply (converted_node_wellKinded noText noMarshal noInfo 2 oneTwo).
  reflexivity.
Defined.

Lemma scalar_nodes_witness :
  plain noText hi = true
  /\ run 1 hi = Done (Some (mkPlistValue String (GoString "hi")), None).
Proof.
  split; [reflexivity|].
  apply (proj1 (scalar_nodes noText noMarshal noInfo 0 "string" noFlags)).
  reflexivity.
Defined.

Lemma unsupported_kind_error_witness :
  plain noText nilFunc = true
  /\ unsupportedKind (reflect.Type_Kind funcType) = true
  /\ run 1 nilFunc = Done (None, Some (UnknownTypeError funcType))
  /\ Error (UnknownTypeError funcType : error Empty_set)
     = Some "Unknown type func()".
Proof.
  split; [reflexivity|]. split; [reflexivity|].
  apply (unsupported_kind_error noText noMarshal noInfo 0 funcType
           reflect.DOpaque noFlags); reflexivity.
Defined.

Lemma byte_sequence_data_witness :
  plain noText specBytes = true
  /\ wellFormed specBytes = true
  /\ Forall (fun b => 0 <= b < 256) [0; 255; 16]
  /\ run 1 specBytes = Done (Some (mkPlistValue Data (GoBytes [0; 255; 16])), None).
Proof.
  assert (Hbs : Forall (fun b => 0 <= b < 256) [0; 255; 16]).
  { repeat (constructor; [lia|]). constructor. }
  split; [reflexivity|]. split; [reflexivity|]. split; [exact Hbs|].
  apply (byte_sequence_data noText noMarshal noInfo 0 reflect.bytesType
           reflect.uint8Type [0; 255; 16] noFlags);
    try reflexivity; try exact Hbs.
  - by left.
  - right. by split.
Defined.

Lemma unexported_bytes_panic_witness :
  wellFormed hiddenBytes = true
  /\ run 1 hiddenBytes
     = Panic "reflect.Copy: value obtained using unexported field".
Proof.
  split; [reflexivity|].
  apply (unexported_bytes_panic noText noMarshal noInfo 0 reflect.bytesType
           reflect.uint8Type _ (reflect.mkflag false true));
    try reflexivity. by left.
Defined.

Lemma nil_text_interface_panics_witness :
  ifaceText textMarshalerType textMarshalerType = true
  /\ valueToPlistValue Empty_set ifaceText noMarshal noInfo 1 nilMarshaler
     = Panic "interface conversion: interface is nil, not encoding.TextMarshaler".
Proof.
  split; [reflexivity|].
  apply (nil_text_interface_panics ifaceText noMarshal noInfo 0
           "encoding.TextMarshaler" noFlags); reflexivity.
Defined.

Lemma unexported_value_never_text_witness :
  valueToPlistValue_body Empty_set stampText stampMarshal noInfo
    (valueToPlistValue Empty_set stampText stampMarshal noInfo 0) hiddenStamp
  = valueToPlistValue_body Empty_set noText noMarshal noInfo
      (valueToPlistValue Empty_set stampText stampMarshal noInfo 0) hiddenStamp.
Proof.
  apply (unexported_value_never_text stampText noText stampMarshal noMarshal
           noInfo _ stampType (reflect.DStruct [reflect.DInt 7])
           (reflect.mkflag false true)).
  reflexivity.
Defined.

Lemma nil_field_omitted_or_panics_witness :
  fieldInfo_value (nextField false) node
  = Done (reflect.V ptrIntType (reflect.DPtr None) noFlags)
  /\ reflect.Value_Elem (reflect.V ptrIntType (reflect.DPtr None) noFlags)
     = Done reflect.Zero
  /\ valueToPlistValue Empty_set noText noMarshal nodeInfo 2 node
     = Panic "reflect: call of reflect.Value.Type on zero Value".
Proof.
  split; [reflexivity|]. split; [reflexivity|].
  apply (proj2 (nil_field_omitted_or_panics noText noMarshal nodeInfo 0 node
                  [] (nextField false) []
                  (reflect.V ptrIntType (reflect.DPtr None) noFlags)
                  eq_refl eq_refl)
           eq_refl eq_refl nodeType (reflect.DStruct [reflect.DPtr None])
           noFlags (mkTypeInfo [nextField false]) []);
    try reflexivity. constructor.
Defined.

Lemma sequence_element_panics_witness :
  plain noText ptrs = true
  /\ wellFormed ptrs = true
  /\ run 1 nilPtr = Panic "reflect: call of reflect.Value.Type on zero Value"
  /\ run 2 ptrs = Panic "reflect: call of reflect.Value.Type on zero Value".
Proof.
  split; [reflexivity|]. split; [reflexivity|]. split; [reflexivity|].
  apply (sequence_element_panics noText noMarshal noInfo 1
           (reflect.Tslice "[]*int" ptrIntType)
           (reflect.DList [reflect.DPtr (Some (reflect.DInt 5)); reflect.DPtr None])
           noFlags ptrIntType
           [reflect.V ptrIntType (reflect.DPtr (Some (reflect.DInt 5)))
              (reflect.mkflag true false)]
           (reflect.V ptrIntType (reflect.DPtr None) (reflect.mkflag true false))
           []);
    try reflexivity.
  - by left.
  - discriminate.
  - constructor; [|constructor]. eexists. reflexivity.
Defined.

Lemma record_last_name_wins_witness :
  exists m : gmap string (option plistValue),
    valueToPlistValue Empty_set noText noMarshal pairInfo 2 pair
    = Done (Some (mkPlistValue Dictionary (GoMap m)), None)
    /\ m !! "A" = Some (Some (mkPlistValue Integer (GoInt64 2))).
Proof.
  apply (record_last_name_wins noText noMarshal pairInfo 1 pairType
           (reflect.DStruct [reflect.DInt 1; reflect.DInt 2]) noFlags
           (mkTypeInfo [firstA; secondA]) [firstA] secondA []
           [Emitted (Some (mkPlistValue Integer (GoInt64 1)))]
           (Some (mkPlistValue Integer (GoInt64 2))) []);
    try reflexivity.
  - constructor; [|constructor].
    eexists. split; [reflexivity|]. split; [reflexivity|].
    split; [by left|reflexivity].
  - eexists. split; [reflexivity|]. split; [reflexivity|].
    split; [by left|reflexivity].
  - constructor.
  - cbn. apply not_elem_of_nil.
Defined.

Lemma map_order_irrelevant_witness :
  NoDup ["a"; "b"]
  /\ [("a", reflect.DInt 1); ("b", reflect.DInt 2)]
     ≡ₚ [("b", reflect.DInt 2); ("a", reflect.DInt 1)]
  /\ run 2 mapBA = run 2 mapAB.
Proof.
  assert (Hnd : NoDup ["a"; "b"]).
  { apply NoDup_cons. split; [|apply NoDup_singleton].
    intros Hin. apply list_elem_of_singleton in Hin. discriminate Hin. }
  split; [exact Hnd|]. split; [apply perm_swap|].
  apply (map_order_irrelevant noText noMarshal noInfo 1 "map[string]int"
           stringType intType noFlags
           [("a", reflect.DInt 1); ("b", reflect.DInt 2)]
           [("b", reflect.DInt 2); ("a", reflect.DInt 1)] intNode);
    try reflexivity; [exact Hnd|apply perm_swap|].
  intros kv Hin. apply elem_of_cons in Hin as [->|Hin]; [reflexivity|].
  apply list_elem_of_singleton in Hin as ->. reflexivity.
Defined.

Lemma conversion_terminates_witness :
  (Value_depth exampleRecord < 2)%nat
  /\ (Value_depth exampleRecord < 5)%nat
  /\ valueToPlistValue Empty_set noText noMarshal recordInfo 2 exampleRecord
     = valueToPlistValue Empty_set noText noMarshal recordInfo 5 exampleRecord
  /\ valueToPlistValue Empty_set noText noMarshal recordInfo 2 exampleRecord
     <> OutOfFuel.
Proof.
  split; [cbn; lia|]. split; [cbn; lia|].
  apply (conversion_terminates noText noMarshal recordInfo 2 5 exampleRecord
           Witnesses.recordInfo_descends); cbn; lia.
Defined.

Lemma empty_containers_witness :
  plain noText noInts = true
  /\ wellFormed noInts = true
  /\ elements noInts = []
  /\ run 1 noInts = Done (Some (mkPlistValue Array (GoSlice [])), None).
Proof.
  split; [reflexivity|]. split; [reflexivity|]. split; [reflexivity|].
  apply (proj1 (empty_containers noText noMarshal noInfo 0)
           (reflect.Tslice "[]int" intType) (reflect.DList []) noFlags intType);
    try reflexivity; [by left|discriminate].
Defined.

Lemma text_lost_behind_interface_witness :
  plain stampText boxedStamp = true
  /\ stampText stampType textMarshalerType = true
  /\ valueToPlistValue Empty_set stampText stampMarshal stampInfo 2 stamp
     = Done (Some (mkPlistValue String (GoBytes [111; 107])), None)
  /\ valueToPlistValue Empty_set stampText stampMarshal stampInfo 2 boxedStamp
     = Done (Some (mkPlistValue Dictionary
                     (GoMap {[ "Sec" := Some (mkPlistValue Integer (GoInt64 7)) ]})),
             None).
Proof.
  split; [reflexivity|]. split; [reflexivity|].
  destruct (text_lost_behind_interface stampText stampMarshal stampInfo 1
              "interface {}" stampType (reflect.DStruct [reflect.DInt 7]) noFlags
              (mkTypeInfo [mkFieldInfo "Sec" false
                             (fun v => reflect.Value_Field v 0)])
              eq_refl eq_refl eq_refl eq_refl eq_refl) as [Htext Hfields].
  split; [exact Htext|]. etransitivity; [exact Hfields|]. reflexivity.
Defined.

End MoreWitnesses.
